(** * go-check-certs: certificate inspection, alert aggregation, host discovery

    A shallow embedding of [pkg/check.go], [pkg/provider.go] and the
    configuration accessors, followed by the properties of the design
    document that were checked against them.

    Conventions.
    - Go [string]s are byte sequences: [string] (a list of [ascii]).
    - Go [int]/[int64] values are [Z]; where the source can overflow the
      wrap-around or saturation is written out.
    - [time.Time] is an instant, nanoseconds since the Unix epoch;
      [time.Duration] is an [int64] count of nanoseconds.
    - [float64] is IEEE binary64, taken from the standard library's
      executable specification ([SpecFloat], precision 53, emax 1024).
    - Channel sends, log lines and network calls are recorded as events.
    - What a call into the environment returns ([tls.Dial], the HTTP and
      JSON calls, the file system), and the library functions whose
      result depends on the zone of the clock or on the encoding of the
      text ([Time.AddDate], [strings.TrimSpace]), are parameters of the
      functions that use them. *)

From Stdlib Require Import ZArith QArith Qround String Ascii List Lia.
From Stdlib Require Import SpecFloat.
From stdpp Require Import gmap strings list pretty.

Local Open Scope string_scope.
Local Open Scope list_scope.
Local Open Scope Z_scope.

(* ===================================================================== *)
(** * Strings: the few functions of Go's [strings] and [fmt] that are used *)
(* ===================================================================== *)

Module strings.

(** [strings.Split(s, sep)] for a one-byte separator: the pieces between
    the occurrences of [sep]; always at least one piece. *)
Fixpoint Split (s : string) (sep : ascii) : list string :=
  match s with
  | EmptyString => [EmptyString]
  | String c rest =>
      if Ascii.eqb c sep then EmptyString :: Split rest sep
      else match Split rest sep with
           | piece :: more => String c piece :: more
           | [] => [String c EmptyString]
           end
  end.

(** [strings.HasPrefix(s, p)]. *)
Fixpoint HasPrefix (s p : string) : bool :=
  match p, s with
  | EmptyString, _ => true
  | String _ _, EmptyString => false
  | String a p', String b s' => Ascii.eqb a b && HasPrefix s' p'
  end.

(** [strings.Contains(s, substr)]. *)
Fixpoint Contains (s substr : string) : bool :=
  HasPrefix s substr ||
  match s with
  | EmptyString => false
  | String _ rest => Contains rest substr
  end.

(** [strings.Join(elems, sep)]. *)
Fixpoint Join (elems : list string) (sep : string) : string :=
  match elems with
  | [] => EmptyString
  | [e] => e
  | e :: more => e +:+ sep +:+ Join more sep
  end.

End strings.

(** [s[1:]]; the callers index a string they know to be non-empty (Go
    panics on [""[1:]], which the model marks with the empty string). *)
Definition tail1 (s : string) : string :=
  match s with
  | EmptyString => EmptyString
  | String _ rest => rest
  end.

(** [s[0]], when [s] is non-empty. *)
Definition byte0 (s : string) : option ascii :=
  match s with
  | EmptyString => None
  | String c _ => Some c
  end.

(** The verb [%d] of [fmt.Sprintf] on an integer. *)
Definition fmt_d (n : Z) : string := pretty n.

(* ===================================================================== *)
(** * float64 and [time] *)
(* ===================================================================== *)

Module float64.

Definition prec : Z := 53.
Definition emax : Z := 1024.

Abbreviation t := spec_float.

(** Conversion [float64(n)] of an integer, round to nearest even. *)
Definition of_int (n : Z) : t := binary_normalize prec emax n 0 false.

Definition add (x y : t) : t := SFadd prec emax x y.
Definition div (x y : t) : t := SFdiv prec emax x y.

(** The number a finite float denotes, as a fraction;
    infinities and NaN denote nothing. *)
Definition value (x : t) : option Q :=
  match x with
  | S754_zero _ => Some (0 # 1)%Q
  | S754_finite s m e =>
      let n := cond_Zopp s (Zpos m) in
      Some (match e with
            | Zneg k => Qmake n (2 ^ k)%positive
            | _ => inject_Z (n * 2 ^ e)
            end)
  | _ => None
  end.

(** The integer part of a finite float, rounding toward zero. *)
Definition truncate (x : t) : option Z :=
  match x with
  | S754_zero _ => Some 0
  | S754_finite s m e =>
      Some (cond_Zopp s (match e with
                         | Zneg k => Zpos m / Zpos (2 ^ k)
                         | _ => Zpos m * 2 ^ e
                         end))
  | _ => None
  end.

End float64.

Definition minInt64 : Z := - 2 ^ 63.
Definition maxInt64 : Z := 2 ^ 63 - 1.

(** The conversion [int64(f)] of a [float64]: the fraction is discarded
    (truncation toward zero).  When the value does not fit, or is not a
    number, Go leaves the result to the implementation; on amd64 it is
    the smallest [int64]. *)
Definition int64_of_float64 (f : float64.t) : Z :=
  match float64.truncate f with
  | Some n => if (minInt64 <=? n) && (n <=? maxInt64) then n else minInt64
  | None => minInt64
  end.

Module time.

(** Instants: nanoseconds since the Unix epoch. *)
Definition Time : Type := Z.
(** Durations: nanoseconds, an [int64]. *)
Definition Duration : Type := Z.

Definition Nanosecond : Duration := 1.
Definition Second : Duration := 1000000000.
Definition Hour : Duration := 3600 * Second.

Definition After (t u : Time) : bool := u <? t.
Definition Equal (t u : Time) : bool := t =? u.

(** [t.Sub(u)]: the difference, saturated to the range of [Duration]. *)
Definition Sub (t u : Time) : Duration :=
  let d := t - u in
  if d <? minInt64 then minInt64
  else if maxInt64 <? d then maxInt64
  else d.

(** [d.Hours()], as the [time] package computes it:
    [float64(d / Hour) + float64(d % Hour) / (60*60*1e9)], with Go's
    truncated division and remainder. *)
Definition Hours (d : Duration) : float64.t :=
  let hour := Z.quot d Hour in
  let nsec := Z.rem d Hour in
  float64.add (float64.of_int hour)
              (float64.div (float64.of_int nsec) (float64.of_int (60 * 60 * 1000000000))).

(** [time.Date(y, 1, 1, 0, 0, 0, 0, time.UTC)] for the one date the
    policy table needs: 2017-01-01T00:00:00Z is 17167 days after the epoch. *)
Definition Date_2017_01_01_UTC : Time := 17167 * (24 * Hour).

End time.

(* ===================================================================== *)
(** * pkg/check.go: the certificate inspector *)
(* ===================================================================== *)

Definition errExpiringShortly (hours : Z) : string :=
  "expires in " +:+ fmt_d hours +:+ " hours".
Definition errExpiringSoon (days : Z) : string :=
  "expires in " +:+ fmt_d days +:+ " days".
Definition errSunsetAlg (name : string) : string :=
  "expires after the sunset date for its signature algorithm '" +:+ name +:+ "'.".
Definition errExpired : string := "SSLCertificate has expired".

Record CheckResult := { WarnMsg : string; Host : string }.

Record sigAlgSunset := {
  name : string;          (* Human read name of signature algorithm *)
  sunsetsAt : time.Time;  (* Time the algorithm will be sunset *)
}.

Module x509.

(** [x509.SignatureAlgorithm] is an [int]; the constants are numbered
    in declaration order. *)
Definition SignatureAlgorithm : Type := Z.

Definition UnknownSignatureAlgorithm : SignatureAlgorithm := 0.
Definition MD2WithRSA : SignatureAlgorithm := 1.
Definition MD5WithRSA : SignatureAlgorithm := 2.
Definition SHA1WithRSA : SignatureAlgorithm := 3.
Definition SHA256WithRSA : SignatureAlgorithm := 4.
Definition SHA384WithRSA : SignatureAlgorithm := 5.
Definition SHA512WithRSA : SignatureAlgorithm := 6.
Definition DSAWithSHA1 : SignatureAlgorithm := 7.
Definition DSAWithSHA256 : SignatureAlgorithm := 8.
Definition ECDSAWithSHA1 : SignatureAlgorithm := 9.
Definition ECDSAWithSHA256 : SignatureAlgorithm := 10.
Definition ECDSAWithSHA384 : SignatureAlgorithm := 11.
Definition ECDSAWithSHA512 : SignatureAlgorithm := 12.
Definition SHA256WithRSAPSS : SignatureAlgorithm := 13.
Definition SHA384WithRSAPSS : SignatureAlgorithm := 14.
Definition SHA512WithRSAPSS : SignatureAlgorithm := 15.
Definition PureEd25519 : SignatureAlgorithm := 16.

(** The two fields of [x509.Certificate] that the inspector reads. *)
Record Certificate := {
  NotAfter : time.Time;
  SignatureAlgorithm_ : SignatureAlgorithm;
}.

End x509.

(** The policy table.  Its first two entries are stamped with
    [time.Now()] when the package is initialised, one reading of the
    clock each: [md2Now] and [md5Now]. *)
Definition sunsetSigAlgs (md2Now md5Now : time.Time) : gmap Z sigAlgSunset :=
  list_to_map [
    (x509.MD2WithRSA,    {| name := "MD2 with RSA";    sunsetsAt := md2Now |});
    (x509.MD5WithRSA,    {| name := "MD5 with RSA";    sunsetsAt := md5Now |});
    (x509.SHA1WithRSA,   {| name := "SHA1 with RSA";   sunsetsAt := time.Date_2017_01_01_UTC |});
    (x509.DSAWithSHA1,   {| name := "DSA with SHA1";   sunsetsAt := time.Date_2017_01_01_UTC |});
    (x509.ECDSAWithSHA1, {| name := "ECDSA with SHA1"; sunsetsAt := time.Date_2017_01_01_UTC |})
  ].

(** What [tls.Dial("tcp", addr, nil)] comes back with: an error, or a
    connection whose state carries the verified chains. *)
Inductive DialResult :=
  | DialErr (err : string)
  | DialOk (VerifiedChains : list (list x509.Certificate)).

(** What one inspection does to the outside world, in order. *)
Inductive Event :=
  | EvDial (network addr : string)   (* tls.Dial(network, addr, nil) *)
  | EvSend (r : CheckResult)         (* sc.out <- r *)
  | EvLog (line : list string)       (* log.Println(args...) *)
  | EvClose.                         (* conn.Close() *)

(** The findings sent on the result channel, in order. *)
Definition sent (evs : list Event) : list CheckResult :=
  omap (fun ev => match ev with EvSend r => Some r | _ => None end) evs.

(** The addresses dialed, in order. *)
Definition dialed (evs : list Event) : list string :=
  omap (fun ev => match ev with EvDial _ addr => Some addr | _ => None end) evs.

(** Lines 80-87: the address handed to [tls.Dial]. *)
Definition dialAddress (host : string) : string :=
  let values := strings.Split host ":"%char in
  let host := if (length values =? 1)%nat then host +:+ ":443" else host in
  if bool_decide (byte0 host = Some "*"%char)
  then (* the wildcard stands for any label: a fixed one replaces it *)
    "abcdefzhki" +:+ tail1 host +:+ ":443"
  else host.

Section Inspector.

(** [t.AddDate(0, 0, days)] of the [time] package, on a reading of the
    local clock.  The package moves the calendar date of [t], as read
    in the location of [t], by [days] and converts the date back to an
    instant: a day across a change of the zone offset has 23 or 25
    hours, and a day count far out of range wraps around in the
    package's machine arithmetic.  The instant it returns is taken from
    the environment. *)
Variable AddDate : time.Time -> Z -> time.Time.

(** The rest of the environment of one inspection: the two clock
    readings of the policy table, the outcome of dialing an address,
    and the clock read after a successful handshake. *)
Variable md2Now md5Now : time.Time.
Variable tlsDial : string -> DialResult.
Variable timeNow : time.Time.

(** Lines 102-109: the expiration check of one certificate. *)
Definition checkExpiration (host : string) (warnDays : Z) (cert : x509.Certificate)
  : list Event :=
  if time.After (AddDate timeNow warnDays) (x509.NotAfter cert) then
    let expiresIn := int64_of_float64 (time.Hours (time.Sub (x509.NotAfter cert) timeNow)) in
    if expiresIn <=? 48 then
      [EvSend {| Host := host; WarnMsg := errExpiringShortly expiresIn |}]
    else
      [EvSend {| Host := host; WarnMsg := errExpiringSoon (Z.quot expiresIn 24) |}]
  else [].

(** Lines 110-115: the signature algorithm check, ignoring the root
    certificate. *)
Definition checkSigAlg (host : string) (chainLen : nat) (certNum : nat)
    (cert : x509.Certificate) : list Event :=
  match sunsetSigAlgs md2Now md5Now !! x509.SignatureAlgorithm_ cert with
  | Some alg =>
      if bool_decide (Z.of_nat certNum ≠ Z.of_nat chainLen - 1) then
        if time.Equal (x509.NotAfter cert) (sunsetsAt alg)
           || time.After (x509.NotAfter cert) (sunsetsAt alg)
        then [EvSend {| WarnMsg := errSunsetAlg (name alg); Host := host |}]
        else []
      else []
  | None => []
  end.

(** The body of the inner loop, for the certificate at [certNum]. *)
Definition checkCert (host : string) (warnDays : Z) (chainLen : nat)
    (certNum : nat) (cert : x509.Certificate) : list Event :=
  checkExpiration host warnDays cert ++ checkSigAlg host chainLen certNum cert.

(** [for certNum, cert := range chain]. *)
Definition checkChain (host : string) (warnDays : Z) (chain : list x509.Certificate)
  : list Event :=
  concat (imap (checkCert host warnDays (length chain)) chain).

Definition checkHostHttps (host : string) (warnDays : Z) : list Event :=
  if bool_decide (host = "") || bool_decide (byte0 host = Some "@"%char) then []
  else
    let host := dialAddress host in
    EvDial "tcp" host ::
    match tlsDial host with
    | DialErr err =>
        if strings.Contains err "certificate has expired" then
          [EvSend {| Host := host; WarnMsg := errExpired |}]
        else
          [EvLog ["WARN skip check"; host; err]]
    | DialOk VerifiedChains =>
        concat (map (checkChain host warnDays) VerifiedChains)
        ++ [EvLog ["DEBUG end checking"; host]; EvClose]
    end.

End Inspector.

(* ===================================================================== *)
(** * pkg/check.go: the notifier *)
(* ===================================================================== *)

Definition contentType : string := "application/json".

Record Content := { Content_ : string }.
Record At := { AtMobiles : list string }.
Record DMessage := {
  MsgType : string;
  Text : Content;
  At_ : At;
  IsAtAll : bool;
}.

(** A [nil] slice is [None]. *)
Definition newDMessage (msg : string) (atMobiles : option (list string)) (atAll : bool)
  : DMessage :=
  let atMobiles := match atMobiles with None => [] | Some l => l end in
  let atUsers := {| AtMobiles := atMobiles |} in
  let text := {| Content_ := msg |} in
  {| MsgType := "text"; Text := text; At_ := atUsers; IsAtAll := atAll |}.

(** What [httpClient.Post] comes back with: an error, or a response
    whose body is read. *)
Inductive PostResult :=
  | PostErr (err : string)
  | PostOk (body : string).

(** What the notifier does to the outside world.  The body of a POST is
    [msg.Encode()], the JSON of the message. *)
Inductive NotifyEvent :=
  | NPost (url contentType : string) (msg : DMessage)
  | NLog (line : list string).

Definition posts (evs : list NotifyEvent) : list DMessage :=
  omap (fun ev => match ev with NPost _ _ msg => Some msg | _ => None end) evs.

(** What the [select] of [Send] wakes up on: a finding on the channel,
    or a tick; the tick carries what the POST will come back with if
    one is made. *)
Inductive Input :=
  | Recv (msg : CheckResult)
  | Tick (resp : PostResult).

Definition newline : string := String (ascii_of_nat 10) EmptyString.

(** The receiver of [Send]; its channel is the stream of [Recv] inputs. *)
Record DDingNotify := { url : string }.

Section Send.

(** [for msg, hosts := range msgs] visits the entries in an order the
    language leaves open. *)
Variable rangeOrder : gmap string (list string) -> list (string * list string).

Variable dn : DDingNotify.

(** One turn of the [for { select { ... } }] loop of [Send]. *)
Definition Send_step (msgs : gmap string (list string)) (i : Input)
  : list NotifyEvent * gmap string (list string) :=
  match i with
  | Recv msg =>
      ([], <[WarnMsg msg := (msgs !!! WarnMsg msg) ++ [Host msg]]> msgs)
  | Tick resp =>
      if bool_decide (size msgs = 0%nat) then
        ([NLog ["DEBUG no messages need to send"]], msgs)
      else
        let sendMsgs :=
          flat_map (fun '(msg, hosts) => msg :: hosts) (rangeOrder msgs) in
        let msg := newDMessage (strings.Join sendMsgs newline) None false in
        ([NPost (url dn) contentType msg;
          match resp with
          | PostErr err => NLog ["ERROR DDing Notify send failed"; err]
          | PostOk body => NLog ["DEBUG dding response"; body]
          end],
         ∅)
  end.

(** The loop, over the inputs that arrive. *)
Fixpoint Send_from (msgs : gmap string (list string)) (inputs : list Input)
  : list NotifyEvent * gmap string (list string) :=
  match inputs with
  | [] => ([], msgs)
  | i :: rest =>
      let '(evs, msgs') := Send_step msgs i in
      let '(evs', msgs'') := Send_from msgs' rest in
      (evs ++ evs', msgs'')
  end.

(** [Send] starts from [make(map[string][]string, 0)]. *)
Definition Send (inputs : list Input) := Send_from ∅ inputs.

End Send.

(* ===================================================================== *)
(** * The configuration accessors and the factories *)
(* ===================================================================== *)

(** How a call ends: it returns, or the process exits through
    [log.Fatalln], or it panics. *)
Inductive Outcome (A : Type) :=
  | Return (a : A)
  | Fatal (line : list string)
  | Panic (msg : string).
Arguments Return {A} a.
Arguments Fatal {A} line.
Arguments Panic {A} msg.

Global Instance Outcome_ret : MRet Outcome := fun A a => Return a.
Global Instance Outcome_bind : MBind Outcome := fun A B k m =>
  match m with
  | Return a => k a
  | Fatal line => Fatal line
  | Panic msg => Panic msg
  end.

(** A value of type [any] out of the YAML document. *)
Inductive any :=
  | AnyNil
  | AnyString (s : string)
  | AnyInt (n : Z)
  | AnyBool (b : bool).

(** [m[key]] on a [map[string]any]: a missing key reads as [nil]. *)
Definition lookupAny (m : gmap string any) (key : string) : any :=
  default AnyNil (m !! key).

(** The type assertion [v.(string)]. *)
Definition assertString (v : any) : Outcome string :=
  match v with
  | AnyString s => Return s
  | AnyNil => Panic "interface conversion: interface {} is nil, not string"
  | AnyInt _ => Panic "interface conversion: interface {} is int, not string"
  | AnyBool _ => Panic "interface conversion: interface {} is bool, not string"
  end.

Record ProviderConfig := {
  Name : string;
  ProviderType : string;
  Addition : gmap string any;
  Domains : list string;
}.

Definition ProviderConfig_Get (pc : ProviderConfig) (key : string) : Outcome string :=
  match lookupAny (Addition pc) key with
  | AnyNil => Fatal [key; "not exist"]      (* log.Fatalln(key, "not exist") *)
  | v => assertString v
  end.

Record NotifyConfig := {
  Type_ : string;
  Config : gmap string any;
}.

Definition NotifyConfig_Get (nc : NotifyConfig) (key : string) : Outcome string :=
  assertString (lookupAny (Config nc) key).

(** [NewNotify]; the channel is not part of the model.  [None] is the
    [nil] notifier of an unknown type. *)
Definition NewNotify (config : NotifyConfig) : Outcome (option DDingNotify) :=
  if bool_decide (Type_ config = "dding") then
    u ← NotifyConfig_Get config "url";
    Return (Some {| url := u |})
  else Return None.

Inductive Provider :=
  | AliyunProvider (keyId keySecret region : string) (domains : list string)
  | FileProvider (file : string)
  | WestDigitalProvider (apiKey : string) (domains : list string).

(** [NewProvider]; the arguments of each constructor are looked up from
    left to right. *)
Definition NewProvider (config : ProviderConfig) : Outcome Provider :=
  if bool_decide (ProviderType config = "aliyun") then
    keyId ← ProviderConfig_Get config "keyId";
    keySecret ← ProviderConfig_Get config "keySecret";
    region ← ProviderConfig_Get config "region";
    domains ← ProviderConfig_Get config "domains";
    Return (AliyunProvider keyId keySecret region (strings.Split domains ","%char))
  else if bool_decide (ProviderType config = "file") then
    filePath ← ProviderConfig_Get config "filePath";
    Return (FileProvider filePath)
  else if bool_decide (ProviderType config = "west") then
    apiKey ← ProviderConfig_Get config "apiKey";
    domains ← ProviderConfig_Get config "domains";
    Return (WestDigitalProvider apiKey (strings.Split domains ","%char))
  else Fatal ["doesn't support provider"; ProviderType config].

(* ===================================================================== *)
(** * pkg/provider.go: the remote DNS provider *)
(* ===================================================================== *)

Definition defaultSize : Z := 100.
Definition maxRetry : nat := 3.
Definition enable : string := "ENABLE".
Definition dnsTypes : list string := ["A"; "CNAME"].
Definition http_StatusOK : Z := 200.

(** A Go [error]: [None] is [nil]. *)
Definition error : Type := option string.

(** The verb [%s] of [fmt] on an [error]. *)
Definition fmt_s_error (err : error) : string :=
  match err with
  | Some msg => msg
  | None => "%!s(<nil>)"
  end.

Record DescribeDomainRecordsRequest := {
  Lang : string;
  PageSize : Z;
  PageNumber : Z;
  DomainName : string;
  Type__ : string;
  Status : string;
}.

(** What [DescribeDomainRecordsWithOptions] comes back with: an error,
    or a response with a status code, the [RR] of each record of the
    page, and the total count. *)
Inductive CallResult :=
  | CallErr (err : string)
  | CallResp (StatusCode : Z) (RRs : list string) (TotalCount : Z).

(** What a provider does to the outside world. *)
Inductive ProviderEvent :=
  | PCall (req : DescribeDomainRecordsRequest)   (* one request to the remote API *)
  | POut (hostname : string)                     (* out <- hostname *)
  | PLog (line : string).                        (* log.Printf(...) *)

Definition calls (evs : list ProviderEvent) : list DescribeDomainRecordsRequest :=
  omap (fun ev => match ev with PCall req => Some req | _ => None end) evs.

Definition hostnames (evs : list ProviderEvent) : list string :=
  omap (fun ev => match ev with POut h => Some h | _ => None end) evs.

(** What one (domain, record type) unit did: the events of the
    goroutine that ran [getRecords], and those of each goroutine it
    started, one per further page. *)
Record UnitRun := {
  main : list ProviderEvent;
  pages : list (list ProviderEvent);
}.

Definition unitHostnames (r : UnitRun) : list string :=
  hostnames (main r) ++ concat (map hostnames (pages r)).

Section AliyunProvider.

(** The remote API: what the [n]-th call with a given request
    returns, [n] counted from 0. *)
Variable client : DescribeDomainRecordsRequest -> nat -> CallResult.

(** [for retry := 0; retry < maxRetry; retry++], entered with
    [remaining = maxRetry - retry]. *)
Fixpoint fetchLoop (req : DescribeDomainRecordsRequest) (domain : string)
    (remaining retry : nat) (lastErr : error)
  : list ProviderEvent * (Z * error) :=
  match remaining with
  | O => ([], (-1, lastErr))
  | S remaining' =>
      match client req retry with
      | CallResp StatusCode RRs TotalCount =>
          if StatusCode =? http_StatusOK then
            let cnt := Z.quot TotalCount defaultSize in
            let cnt := if negb (Z.rem TotalCount defaultSize =? 0) then cnt + 1 else cnt in
            (PCall req :: map (fun RR => POut (RR +:+ "." +:+ domain)) RRs, (cnt, None))
          else
            let '(evs, r) := fetchLoop req domain remaining' (S retry) None in
            (PCall req :: evs, r)
      | CallErr err =>
          let '(evs, r) := fetchLoop req domain remaining' (S retry) (Some err) in
          (PCall req :: evs, r)
      end
  end.

Definition fetchWithRetry (domain dnsType : string) (page pageSize : Z)
  : list ProviderEvent * (Z * error) :=
  let describeDomainRecordsRequest := {|
    Lang := "en";
    PageSize := pageSize;
    PageNumber := page;
    DomainName := domain;
    Type__ := dnsType;
    Status := enable;
  |} in
  fetchLoop describeDomainRecordsRequest domain maxRetry 0 None.

Definition getRecords (domain dnsType : string) : UnitRun :=
  let '(evs, (totalPage, err)) := fetchWithRetry domain dnsType 1 defaultSize in
  if bool_decide (err ≠ None) || (totalPage <? 0) then
    {| main := evs ++ [PLog ("Get domain " +:+ domain +:+ " total page failed "
                             +:+ fmt_s_error err)];
       pages := [] |}
  else
    {| main := evs;
       pages := map (fun page => fst (fetchWithRetry domain dnsType page defaultSize))
                    (seqZ 2 (totalPage - 1)) |}.

(** [strings.TrimSpace], of Go's library. *)
Variable TrimSpace : string -> string.

(** One goroutine per domain and record type. *)
Definition GetAllRecords (domains : list string) : list UnitRun :=
  domain ← domains; dnsType ← dnsTypes; [getRecords (TrimSpace domain) dnsType].

End AliyunProvider.

(* ===================================================================== *)
(** * pkg/check.go: the inspector's loop over the host channel *)
(* ===================================================================== *)

(** [SimpleCheck.Check]: one goroutine per host received on [sc.in].
    The [i]-th of them has its own handshake outcomes and its own
    reading of the clock; the result lists what each one does. *)
Definition Check (AddDate : time.Time -> Z -> time.Time) (md2Now md5Now : time.Time)
    (tlsDial : nat -> string -> DialResult)
    (clock : nat -> time.Time) (hosts : list string) (warnDays : Z)
  : list (list Event) :=
  imap (fun i host => checkHostHttps AddDate md2Now md5Now (tlsDial i) (clock i) host warnDays)
       hosts.

(* ===================================================================== *)
(** * pkg/provider.go: the file provider *)
(* ===================================================================== *)

(** What [os.ReadFile] comes back with. *)
Inductive ReadFileResult :=
  | ReadFileErr (err : string)
  | ReadFileOk (contents : string).

Section FileProvider.

(** [strings.TrimSpace], of Go's library. *)
Variable TrimSpace : string -> string.
Variable readFile : string -> ReadFileResult.

(** [FileProvider.GetAllRecords], for the provider of the file [file]. *)
Definition FileProvider_GetAllRecords (file : string) : list ProviderEvent :=
  match readFile file with
  | ReadFileErr err => [PLog ("WARN read file error " +:+ err)]
  | ReadFileOk contents =>
      let lines := strings.Split contents (ascii_of_nat 10) in
      flat_map (fun line =>
                  let host := TrimSpace line in
                  if (String.length host =? 0)%nat || bool_decide (byte0 host = Some "#"%char)
                  then []
                  else [POut host])
               lines
  end.

End FileProvider.

(* ===================================================================== *)
(** * pkg/provider.go: the third-party API provider *)
(* ===================================================================== *)

Definition baseURL : string := "https://api.west.cn/API/v2/domain/dns/".
Definition queryAction : string := "dnsrec.list".

(** A value decoded from JSON into [any]: [nil], a [bool], a [float64],
    a [string], or an array or object. *)
Inductive jsonValue :=
  | JNull
  | JBool (b : bool)
  | JNumber (f : float64.t)
  | JString (s : string)
  | JArray
  | JObject.

(** [url.Values.Add]. *)
Definition Values_Add (v : gmap string (list string)) (key value : string)
  : gmap string (list string) :=
  <[key := (v !!! key) ++ [value]]> v.

(** The requests [doAction] builds.  [Form] is the body, the form whose
    encoding [query.Encode()] is sent; a GET has none. *)
Record Request := {
  Method : string;
  URL : string;
  Form : option (gmap string (list string));
  ContentType : option string;
}.

(** What [client.Do] followed by [io.ReadAll] comes back with. *)
Inductive DoResult :=
  | DoErr (err : string)
  | DoOk (body : string).

(** What [json.Unmarshal] into a [WestResponse] comes back with. *)
Inductive UnmarshalResult :=
  | UnmarshalErr (err : string)
  | UnmarshalOk (Code : Z) (Items : list (gmap string jsonValue)).

(** What the third-party provider does to the outside world. *)
Inductive WestEvent :=
  | WDo (req : Request)              (* client.Do(req) *)
  | WOut (hostname : string)         (* out <- hostname *)
  | WLog (line : list string)        (* log.Println(args...) *)
  | WSleep (d : time.Duration).      (* time.Sleep(d) *)

Definition requests (evs : list WestEvent) : list Request :=
  omap (fun ev => match ev with WDo req => Some req | _ => None end) evs.

Definition westHostnames (evs : list WestEvent) : list string :=
  omap (fun ev => match ev with WOut h => Some h | _ => None end) evs.

Definition sleeps (evs : list WestEvent) : list time.Duration :=
  omap (fun ev => match ev with WSleep d => Some d | _ => None end) evs.

(** [record[key]] on a [map[string]any]. *)
Definition lookupJSON (record : gmap string jsonValue) (key : string) : jsonValue :=
  default JNull (record !! key).

(** The type assertion [v.(float64)]. *)
Definition assertFloat64 (v : jsonValue) : Outcome float64.t :=
  match v with
  | JNumber f => Return f
  | JNull => Panic "interface conversion: interface {} is nil, not float64"
  | JBool _ => Panic "interface conversion: interface {} is bool, not float64"
  | JString _ => Panic "interface conversion: interface {} is string, not float64"
  | JArray => Panic "interface conversion: interface {} is []interface {}, not float64"
  | JObject =>
      Panic "interface conversion: interface {} is map[string]interface {}, not float64"
  end.

(** [f == 0] on a [float64]: both zeros are equal to 0. *)
Definition float64_is_zero (f : float64.t) : bool :=
  SFeqb f (S754_zero false).

Section WestDigitalProvider.

(** [for k, v := range param] visits the entries in an order the
    language leaves open. *)
Variable rangeParam : gmap string string -> list (string * string).
(** The error of [http.NewRequest] for a method and a URL, if any. *)
Variable newRequestErr : string -> string -> error.
(** The remote API: what the [n]-th sending of a request returns. *)
Variable clientDo : Request -> nat -> DoResult.
Variable jsonUnmarshal : string -> UnmarshalResult.
(** The verb [%s] of [fmt] on a value that is not a string. *)
Variable fmt_s_other : jsonValue -> string.

Variable apiKey : string.

(** The verb [%s] of [fmt] on an [any]. *)
Definition fmt_s_any (v : jsonValue) : string :=
  match v with
  | JString s => s
  | _ => fmt_s_other v
  end.

(** [doAction]; [n] tells the sendings of one request apart. *)
Definition doAction (path : string) (param : gmap string string) (isGet : bool) (n : nat)
  : list WestEvent * DoResult :=
  let apiPath := if negb (String.eqb path "") then baseURL +:+ path else baseURL in
  let query := Values_Add ∅ "apidomainkey" apiKey in
  let query := foldl (fun q '(k, v) => Values_Add q k v) query (rangeParam param) in
  if isGet then
    match newRequestErr "GET" apiPath with
    | Some err => ([], DoErr err)
    | None =>
        let req := {| Method := "GET"; URL := apiPath; Form := None; ContentType := None |} in
        ([WDo req], clientDo req n)
    end
  else
    match newRequestErr "POST" apiPath with
    | Some err => ([], DoErr err)
    | None =>
        let req := {| Method := "POST"; URL := apiPath; Form := Some query;
                      ContentType := Some "application/x-www-form-urlencoded;charset=GBK" |} in
        ([WDo req], clientDo req n)
    end.

(** [for _, record := range wp.Body.Items] of [queryDomainRecord]. *)
Fixpoint itemsLoop (domain : string) (items : list (gmap string jsonValue))
  : list WestEvent * Outcome error :=
  match items with
  | [] => ([], Return None)
  | record :: rest =>
      match assertFloat64 (lookupJSON record "pause") with
      | Return pause =>
          let evs := if float64_is_zero pause
                     then [WOut (fmt_s_any (lookupJSON record "hostname") +:+ "." +:+ domain)]
                     else [] in
          let '(evs', r) := itemsLoop domain rest in
          (evs ++ evs', r)
      | Fatal line => ([], Fatal line)
      | Panic msg => ([], Panic msg)
      end
  end.

Definition queryDomainRecord (domain recordType : string) (n : nat)
  : list WestEvent * Outcome error :=
  let param : gmap string string :=
    <["act" := queryAction]> (<["domain" := domain]> (<["record_type" := recordType]> ∅)) in
  let '(evs, resp) := doAction "" param false n in
  match resp with
  | DoErr err => (evs, Return (Some err))
  | DoOk resp =>
      match jsonUnmarshal resp with
      | UnmarshalErr err => (evs, Return (Some err))
      | UnmarshalOk Code Items =>
          if Code =? 500 then (evs, Return (Some "remote provider service error"))
          else
            let '(evs', r) := itemsLoop domain Items in
            (evs ++ evs', r)
      end
  end.

(** [for i := 0; i < maxRetry; i++] of the goroutine of one unit,
    entered with [remaining = maxRetry - i]. *)
Fixpoint westLoop (domain recordType : string) (remaining i : nat)
  : list WestEvent * Outcome unit :=
  match remaining with
  | O => ([WLog ["ERROR provider west digital failed exceed "; pretty maxRetry]], Return tt)
  | S remaining' =>
      let '(evs, r) := queryDomainRecord domain recordType i in
      match r with
      | Return None => (evs, Return tt)
      | Return (Some _) =>
          let '(evs', r') := westLoop domain recordType remaining' (S i) in
          (evs ++ [WLog ["WARN provider west digital get record failed, try again in 1 seconds"];
                   WSleep time.Second] ++ evs',
           r')
      | Fatal line => (evs, Fatal line)
      | Panic msg => (evs, Panic msg)
      end
  end.

(** [WestDigitalProvider.GetAllRecords]: one goroutine per domain and
    record type. *)
Definition WestDigitalProvider_GetAllRecords (domains : list string)
  : list (list WestEvent * Outcome unit) :=
  domain ← domains; recordType ← dnsTypes; [westLoop domain recordType maxRetry 0].

End WestDigitalProvider.

(* ===================================================================== *)
(** * check-certs.go: start-up and cadence *)
(* ===================================================================== *)

Record Config_ := {
  Timeout : Z;
  WarnDays : Z;
  Providers : list ProviderConfig;
  Notifies : list NotifyConfig;
}.

Definition cacheSize : Z := 50.
Definition checkInterval : time.Duration := 24 * time.Hour.

(** Arithmetic on [int64] wraps around. *)
Definition wrap64 (z : Z) : Z := (z + 2 ^ 63) mod 2 ^ 64 - 2 ^ 63.

(** [waitTime := time.Duration(config.Timeout) * 10 * time.Second]. *)
Definition waitTime (config : Config_) : time.Duration :=
  wrap64 (wrap64 (Timeout config * 10) * time.Second).

(** [notify := pkg.NewNotify(config.Notifies[0], resChan)] and the
    method value [notify.Send] of [go notify.Send(waitTime)]: indexing
    an empty slice panics, and so does taking a method of the [nil]
    notifier. *)
Definition startNotifier (config : Config_) : Outcome DDingNotify :=
  match Notifies config with
  | [] => Panic "runtime error: index out of range [0] with length 0"
  | nc :: _ =>
      notify ← NewNotify nc;
      match notify with
      | None => Panic "runtime error: invalid memory address or nil pointer dereference"
      | Some dn => Return dn
      end
  end.

(** [DDingNotify.Send] from its first statement: [time.NewTicker]
    panics unless the interval is positive. *)
Definition Send_run (rangeOrder : gmap string (list string) -> list (string * list string))
    (dn : DDingNotify) (waitTime : time.Duration) (inputs : list Input)
  : Outcome (list NotifyEvent * gmap string (list string)) :=
  if waitTime <=? 0 then Panic "non-positive interval for NewTicker"
  else Return (Send rangeOrder dn inputs).

(** [time.Sleep(checkInterval - waitTime)] at the end of a cycle: the
    duration asked for, and the pause made (none for a duration that is
    not positive). *)
Definition cycleSleep (config : Config_) : time.Duration :=
  wrap64 (checkInterval - waitTime config).

Definition cyclePause (config : Config_) : time.Duration :=
  Z.max 0 (cycleSleep config).

(* ===================================================================== *)
(** * Vocabulary of the properties *)
(* ===================================================================== *)

(** A rational with its fraction discarded (rounded toward zero). *)
Definition Qtruncate (q : Q) : Z := if Qle_bool 0 q then Qfloor q else Qceiling q.

(** [fits s B x]: [x] is a zero, or a finite float of sign [s] whose
    magnitude is below [2^B]. *)
Definition fits (s : bool) (B : Z) (x : spec_float) : Prop :=
  match x with
  | S754_zero _ => True
  | S754_finite s' m e => s' = s /\ Zpos (digits2_pos m) + e <= B
  | _ => False
  end.

(** The hours left until a certificate expires, as the inspector
    computes them. *)
Definition hoursRemaining (timeNow : time.Time) (cert : x509.Certificate) : float64.t :=
  time.Hours (time.Sub (x509.NotAfter cert) timeNow).

(** The test of line 102: the certificate is inside the warn window. *)
Definition inWindow (AddDate : time.Time -> Z -> time.Time) (timeNow : time.Time)
    (warnDays : Z) (cert : x509.Certificate) : bool :=
  time.After (AddDate timeNow warnDays) (x509.NotAfter cert).

(** The text of an expiry finding as the design document words it, from
    the number the hours remaining denote: the hours with their
    fraction dropped when these are at most 48, the whole days
    otherwise.  ([Duration.Hours] always denotes a number; the last
    case does not arise.) *)
Definition expiryMessage (timeNow : time.Time) (cert : x509.Certificate) : string :=
  match float64.value (hoursRemaining timeNow cert) with
  | Some v =>
      let N := Qtruncate v in
      if N <=? 48 then errExpiringShortly N else errExpiringSoon (Qfloor (v / 24))
  | None => ""
  end.

(** The findings of the expiration check are told from the others by
    the words their text starts with. *)
Definition isExpiryFinding (r : CheckResult) : bool :=
  strings.HasPrefix (WarnMsg r) "expires in ".

(** The text [s] has [phrase] somewhere in it. *)
Definition mentions (s phrase : string) : Prop :=
  exists pre post, s = pre +:+ phrase +:+ post.

(** The environment of the examples: a clock in UTC, instants of this
    century and windows of a few days.  There [AddDate(0, 0, days)]
    moves the instant by [days] days of 24 hours. *)
Definition AddDate_in_UTC (t : time.Time) (days : Z) : time.Time :=
  t + days * (24 * time.Hour).

(** A host that the inspector does not skip. *)
Definition inspected (host : string) : Prop :=
  host <> "" /\ byte0 host <> Some "@"%char.

(** The findings received since the last tick. *)
Definition window (inputs : list Input) : list CheckResult :=
  fold_left (fun acc i => match i with Recv r => acc ++ [r] | Tick _ => [] end) inputs [].

(** The hosts of the findings that carry the message [m], in order. *)
Definition hostsWith (m : string) (fs : list CheckResult) : list string :=
  Host <$> filter (fun r => WarnMsg r = m) fs.

(** The buffer holds, under each message, the hosts received with it
    since the last tick, and nothing else. *)
Definition holds (msgs : gmap string (list string)) (w : list CheckResult) : Prop :=
  forall m, msgs !! m = match hostsWith m w with [] => None | hs => Some hs end.

(** A call of the remote API that [fetchWithRetry] accepts. *)
Definition succeeds (r : CallResult) : bool :=
  match r with
  | CallResp StatusCode _ _ => StatusCode =? http_StatusOK
  | CallErr _ => false
  end.

(** How many times the byte [c] occurs in [s]. *)
Fixpoint countByte (c : ascii) (s : string) : nat :=
  match s with
  | EmptyString => 0%nat
  | String c' rest => ((if Ascii.eqb c' c then 1 else 0) + countByte c rest)%nat
  end.

(** A host that [checkHostHttps] dials: not empty, not disabled by a
    leading [@]. *)
Definition dialable (host : string) : bool :=
  negb (bool_decide (host = "") || bool_decide (byte0 host = Some "@"%char)).

(** A trimmed line of the hosts file that names a host. *)
Definition listed (host : string) : bool :=
  negb ((String.length host =? 0)%nat || bool_decide (byte0 host = Some "#"%char)).

(** How many ticks find findings received since the tick before;
    [pending] tells whether any was received before the first input. *)
Fixpoint flushes (pending : bool) (inputs : list Input) : nat :=
  match inputs with
  | [] => 0%nat
  | Recv _ :: rest => flushes true rest
  | Tick _ :: rest => ((if pending then 1 else 0) + flushes false rest)%nat
  end.

(** The request [getRecords] makes for the page [page] of a unit. *)
Definition pageRequest (domain dnsType : string) (page : Z) : DescribeDomainRecordsRequest :=
  {| Lang := "en"; PageSize := defaultSize; PageNumber := page;
     DomainName := domain; Type__ := dnsType; Status := enable |}.

(** The lines a provider logs. *)
Definition logged (evs : list ProviderEvent) : list string :=
  omap (fun ev => match ev with PLog line => Some line | _ => None end) evs.

(** The pause flag of a decoded item, when it is a number. *)
Definition pauseOf (record : gmap string jsonValue) : option float64.t :=
  match lookupJSON record "pause" with
  | JNumber f => Some f
  | _ => None
  end.

(** An item that is not paused. *)
Definition active (record : gmap string jsonValue) : bool :=
  match pauseOf record with
  | Some f => float64_is_zero f
  | None => false
  end.

(** The request of [queryDomainRecord] for a unit: a POST of the form
    with the API key and the three parameters. *)
Definition queryRequest (apiKey domain recordType : string) : Request :=
  {| Method := "POST"; URL := baseURL;
     Form := Some (<["apidomainkey" := [apiKey]]>
                   (<["act" := [queryAction]]>
                    (<["domain" := [domain]]>
                     (<["record_type" := [recordType]]> ∅))));
     ContentType := Some "application/x-www-form-urlencoded;charset=GBK" |}.

(** The options a provider type requires, in the order they are looked
    up; [None] for a type that is not supported. *)
Definition requiredOptions (providerType : string) : option (list string) :=
  if bool_decide (providerType = "aliyun") then Some ["keyId"; "keySecret"; "region"; "domains"]
  else if bool_decide (providerType = "file") then Some ["filePath"]
  else if bool_decide (providerType = "west") then Some ["apiKey"; "domains"]
  else None.

(** The options of a list looked up in order. *)
Fixpoint getOptions (pc : ProviderConfig) (keys : list string) : Outcome (list string) :=
  match keys with
  | [] => Return []
  | key :: rest =>
      v ← ProviderConfig_Get pc key;
      vs ← getOptions pc rest;
      Return (v :: vs)
  end.

(* ===================================================================== *)
(** * float64: sign and magnitude through rounding *)
(* ===================================================================== *)

Lemma digits2_pos_size p : digits2_pos p = Pos.size p.
Proof. induction p; simpl; congruence. Qed.

Lemma Zdigits2_lt m : 0 <= m -> m < 2 ^ Zdigits2 m.
Proof.
  intros Hm. destruct m as [|p|p]; simpl; [lia| |lia].
  rewrite digits2_pos_size. pose proof (Pos.size_gt p) as H.
  rewrite <- Pos2Z.inj_pow. lia.
Qed.

Lemma Zdigits2_le m k : 0 <= m -> 0 <= k -> m < 2 ^ k -> Zdigits2 m <= k.
Proof.
  intros Hm Hk Hlt. destruct m as [|p|p]; simpl; [lia| |lia].
  rewrite digits2_pos_size.
  destruct (Z.le_gt_cases (Zpos (Pos.size p)) k) as [|Hgt]; [done|exfalso].
  pose proof (Pos.size_le p) as H.
  assert (2 ^ (k + 1) <= 2 ^ Zpos (Pos.size p)) by (apply Z.pow_le_mono_r; lia).
  rewrite Z.pow_add_r in * by lia.
  assert (Zpos (2 ^ Pos.size p) <= Zpos p~0) by lia.
  rewrite Pos2Z.inj_pow in *. lia.
Qed.

Lemma Zdigits2_nonneg m : 0 <= Zdigits2 m.
Proof. destruct m; simpl; lia. Qed.

Lemma shr_1_spec r :
  0 <= shr_m r ->
  0 <= shr_m (shr_1 r) /\ Zdigits2 (shr_m (shr_1 r)) = Z.max 0 (Zdigits2 (shr_m r) - 1).
Proof.
  destruct r as [m rb sb]; simpl. intros Hm.
  destruct m as [|[p|p|]|p]; simpl; lia.
Qed.

Lemma shr_iter_spec p : forall r,
  0 <= shr_m r ->
  0 <= shr_m (SpecFloat.iter_pos shr_1 p r)
  /\ Zdigits2 (shr_m (SpecFloat.iter_pos shr_1 p r)) = Z.max 0 (Zdigits2 (shr_m r) - Zpos p).
Proof.
  induction p as [p IH|p IH|]; intros r Hr; simpl.
  - destruct (shr_1_spec r Hr) as [H1 E1].
    destruct (IH _ H1) as [H2 E2]. destruct (IH _ H2) as [H3 E3].
    split; [done|]. rewrite E3, E2, E1. lia.
  - destruct (IH _ Hr) as [H2 E2]. destruct (IH _ H2) as [H3 E3].
    split; [done|]. rewrite E3, E2. lia.
  - apply shr_1_spec; done.
Qed.

Lemma shr_m_of_loc m l : shr_m (shr_record_of_loc m l) = m.
Proof. destruct l as [|[]]; reflexivity. Qed.

Lemma shr_fexp_spec m e l r' e' :
  0 <= m ->
  shr_fexp 53 1024 m e l = (r', e') ->
  0 <= shr_m r' /\ Zdigits2 (shr_m r') + e' <= Z.max (Zdigits2 m + e) (-1074).
Proof.
  intros Hm. unfold shr_fexp, shr, fexp, emin.
  pose proof (shr_m_of_loc m l) as Hrec.
  destruct (Z.max (Zdigits2 m + e - 53) (3 - 1024 - 53) - e) as [|p|p] eqn:Hn;
    intros [= <- <-]; rewrite ?Hrec; try (split; lia).
  destruct (shr_iter_spec p (shr_record_of_loc m l)) as [H0 Hd]; [rewrite Hrec; lia|].
  split; [done|]. rewrite Hd, Hrec. lia.
Qed.

Lemma round_nearest_even_spec m l :
  0 <= m ->
  0 <= round_nearest_even m l /\ Zdigits2 (round_nearest_even m l) <= Zdigits2 m + 1.
Proof.
  intros Hm.
  assert (Hs : 0 <= m + 1 /\ Zdigits2 (m + 1) <= Zdigits2 m + 1).
  { split; [lia|]. pose proof (Zdigits2_nonneg m). apply Zdigits2_le; try lia.
    pose proof (Zdigits2_lt m Hm). rewrite Z.pow_add_r by lia. lia. }
  unfold round_nearest_even. destruct l as [|[]]; try destruct (Z.even m); try lia; try done.
Qed.

Lemma fits_mono s B B' x : B <= B' -> fits s B x -> fits s B' x.
Proof. destruct x; simpl; try done. intros ? [-> ?]. split; [done|lia]. Qed.

Lemma binary_round_aux_fits s mx ex lx B :
  0 <= mx ->
  Z.max (Zdigits2 mx + ex) (-1074) + 1 <= B -> B <= 972 ->
  fits s B (binary_round_aux 53 1024 s mx ex lx).
Proof.
  intros Hmx HB HB'. unfold binary_round_aux.
  destruct (shr_fexp 53 1024 mx ex lx) as [r1 e1] eqn:E1.
  destruct (shr_fexp_spec _ _ _ _ _ Hmx E1) as [H1 D1].
  destruct (round_nearest_even_spec (shr_m r1) (loc_of_shr_record r1) H1) as [H2 D2].
  destruct (shr_fexp 53 1024 _ e1 loc_Exact) as [r2 e2] eqn:E2.
  destruct (shr_fexp_spec _ _ _ _ _ H2 E2) as [H3 D3].
  destruct (shr_m r2) as [|m|m] eqn:Em; simpl in *; [done| |lia].
  assert (e2 <= 971) by lia.
  destruct (Z.leb_spec e2 (1024 - 53)); [|lia]. simpl. split; [done|lia].
Qed.

Lemma digits2_pos_iter_xO d : forall m,
  Zpos (digits2_pos (Pos.iter xO m d)) = Zpos (digits2_pos m) + Zpos d.
Proof.
  induction d as [|d IH] using Pos.peano_ind; intros m.
  - simpl. lia.
  - rewrite Pos.iter_succ. simpl. rewrite Pos2Z.inj_succ, IH. lia.
Qed.

Lemma shl_align_spec mx ex ex' mz ez :
  shl_align mx ex ex' = (mz, ez) ->
  Zpos (digits2_pos mz) + ez = Zpos (digits2_pos mx) + ex.
Proof.
  unfold shl_align. destruct (ex' - ex) as [|d|d] eqn:Hd; intros [= <- <-]; try done.
  rewrite digits2_pos_iter_xO. lia.
Qed.

Lemma binary_round_fits s m e B :
  Z.max (Zpos (digits2_pos m) + e) (-1074) + 1 <= B -> B <= 972 ->
  fits s B (binary_round 53 1024 s m e).
Proof.
  intros HB HB'. unfold binary_round.
  destruct (shl_align m e _) as [mz ez] eqn:E.
  apply shl_align_spec in E.
  apply binary_round_aux_fits; simpl; lia.
Qed.

Lemma binary_normalize_fits z e B :
  Z.max (Zdigits2 z + e) (-1074) + 1 <= B -> B <= 972 ->
  fits (z <? 0) B (binary_normalize 53 1024 z e false).
Proof.
  intros HB HB'. destruct z; simpl; [done| |]; apply binary_round_fits; simpl in *; lia.
Qed.

Lemma Zdigits2_ge m : 0 < m -> 2 ^ (Zdigits2 m - 1) <= m.
Proof.
  intros Hm. destruct m as [|p|p]; simpl; try lia.
  rewrite digits2_pos_size. pose proof (Pos.size_le p) as H.
  assert (Zpos (2 ^ Pos.size p) <= Zpos p~0) as H' by lia.
  rewrite Pos2Z.inj_pow in H'.
  replace (Zpos (Pos.size p)) with (Zpos (Pos.size p) - 1 + 1) in H' by lia.
  rewrite Z.pow_add_r in H' by lia. lia.
Qed.

Lemma SFdiv_core_binary_spec mx ex my ey q e' l :
  SFdiv_core_binary 53 1024 (Zpos mx) ex (Zpos my) ey = (q, e', l) ->
  0 <= q /\
  Zdigits2 q + e' <= Z.max (Zpos (digits2_pos mx) + ex - (Zpos (digits2_pos my) + ey) + 1) (-1074).
Proof.
  unfold SFdiv_core_binary, fexp, emin. simpl Zdigits2.
  set (dx := Zpos (digits2_pos mx)). set (dy := Zpos (digits2_pos my)).
  set (e0 := Z.min _ _). set (s := ex - ey - e0).
  set (m' := match s with Z0 => Zpos mx | Zpos _ => Z.shiftl (Zpos mx) s | Zneg _ => 0 end).
  pose proof (Z_div_mod m' (Zpos my) eq_refl) as Hdm.
  destruct (Z.div_eucl m' (Zpos my)) as [q0 r0]. intros [= <- <- <-].
  destruct Hdm as [Hm' Hr].
  assert (Hs : 0 <= s) by (subst s e0; lia).
  assert (Em' : m' = Zpos mx * 2 ^ s).
  { subst m'. destruct s as [|p|p] eqn:Es; [lia| |lia]. rewrite Z.shiftl_mul_pow2; lia. }
  assert (Hpow : 0 < 2 ^ s) by (apply Z.pow_pos_nonneg; lia).
  assert (Hq0 : 0 <= q0) by nia.
  split; [done|].
  destruct (Z.eq_dec q0 0) as [->|Hne].
  { simpl. subst e0. lia. }
  pose proof (Zdigits2_lt (Zpos mx) ltac:(lia)) as Hmx. simpl in Hmx. fold dx in Hmx.
  pose proof (Zdigits2_ge (Zpos my) ltac:(lia)) as Hmy. simpl in Hmy. fold dy in Hmy.
  assert (Hdy : 1 <= dy) by (subst dy; lia).
  assert (Hdx : 1 <= dx) by (subst dx; lia).
  assert (Hlt : 2 ^ (dy - 1) < 2 ^ (dx + s)).
  { rewrite Z.pow_add_r by lia. nia. }
  apply Z.pow_lt_mono_r_iff in Hlt; [|lia|lia].
  assert (Zdigits2 q0 <= dx + s - dy + 1); [|subst s; lia].
  apply Zdigits2_le; [done|lia|].
  assert (q0 * 2 ^ (dy - 1) < 2 ^ (dx + s - dy + 1) * 2 ^ (dy - 1)); [|nia].
  rewrite <- Z.pow_add_r by lia. replace (dx + s - dy + 1 + (dy - 1)) with (dx + s) by lia.
  rewrite Z.pow_add_r by lia. nia.
Qed.

Lemma SFdiv_fits s Bx B x my ey :
  fits s Bx x ->
  Z.max (Bx - (Zpos (digits2_pos my) + ey) + 1) (-1074) + 1 <= B -> B <= 972 ->
  fits s B (SFdiv 53 1024 x (S754_finite false my ey)).
Proof.
  intros Hx HB HB'. destruct x as [sx|sx| |sx mx ex]; simpl in Hx |- *; try done.
  destruct Hx as [-> Hx].
  destruct (SFdiv_core_binary 53 1024 (Zpos mx) ex (Zpos my) ey) as [[q e'] l] eqn:E.
  apply SFdiv_core_binary_spec in E as [Hq Hd].
  rewrite xorb_false_r. apply binary_round_aux_fits; lia.
Qed.

Lemma shl_align_fst mx ex ex' :
  ex' <= ex ->
  Zpos (digits2_pos (fst (shl_align mx ex ex'))) + ex' = Zpos (digits2_pos mx) + ex.
Proof.
  intros Hle. unfold shl_align. destruct (ex' - ex) as [|d|d] eqn:Hd; simpl; try lia.
  rewrite digits2_pos_iter_xO. lia.
Qed.

Lemma Zdigits2_add a b k :
  0 < a -> 0 < b -> Zdigits2 a <= k -> Zdigits2 b <= k -> Zdigits2 (a + b) <= k + 1.
Proof.
  intros Ha Hb Da Db. pose proof (Zdigits2_nonneg a).
  apply Zdigits2_le; [lia|lia|].
  pose proof (Zdigits2_lt a ltac:(lia)). pose proof (Zdigits2_lt b ltac:(lia)).
  assert (2 ^ Zdigits2 a <= 2 ^ k) by (apply Z.pow_le_mono_r; lia).
  assert (2 ^ Zdigits2 b <= 2 ^ k) by (apply Z.pow_le_mono_r; lia).
  rewrite Z.pow_add_r by lia. lia.
Qed.

Lemma Zdigits2_opp z : Zdigits2 (- z) = Zdigits2 z.
Proof. destruct z; reflexivity. Qed.

Lemma SFadd_fits s Bx By B x y :
  fits s Bx x -> fits s By y ->
  Z.max (Z.max Bx By + 1) (-1074) + 1 <= B -> B <= 972 ->
  fits s B (SFadd 53 1024 x y).
Proof.
  intros Hx Hy HB HB'.
  destruct x as [sx|sx| |sx mx ex], y as [sy|sy| |sy my ey]; simpl in Hx, Hy; try done.
  - simpl. destruct sx, sy; done.
  - simpl. destruct Hy as [-> Hy]. split; [done|lia].
  - simpl. destruct Hx as [-> Hx]. split; [done|lia].
  - destruct Hx as [-> Hx], Hy as [-> Hy]. unfold SFadd.
    set (ez := Z.min ex ey).
    pose proof (shl_align_fst mx ex ez ltac:(subst ez; lia)) as Ha.
    pose proof (shl_align_fst my ey ez ltac:(subst ez; lia)) as Hb.
    set (a := fst (shl_align mx ex ez)) in *. set (b := fst (shl_align my ey ez)) in *.
    set (z := cond_Zopp s (Zpos a) + cond_Zopp s (Zpos b)).
    assert (Hz : Zdigits2 z <= Z.max Bx By - ez + 1 /\ (z <? 0) = s).
    { pose proof (Zdigits2_add (Zpos a) (Zpos b) (Z.max Bx By - ez)
                    ltac:(lia) ltac:(lia) ltac:(simpl; lia) ltac:(simpl; lia)) as Hd.
      subst z. destruct s; simpl cond_Zopp.
      - replace (- Zpos a + - Zpos b) with (- (Zpos a + Zpos b)) by lia.
        rewrite Zdigits2_opp. split; [done|]. apply Z.ltb_lt. lia.
      - split; [done|]. apply Z.ltb_ge. lia. }
    destruct Hz as [Hz Hs].
    pose proof (binary_normalize_fits z ez B ltac:(lia) HB') as Hn.
    rewrite Hs in Hn. exact Hn.
Qed.

Lemma of_int_fits (s : bool) z k :
  (if s then z <= 0 else 0 <= z) -> Z.abs z < 2 ^ k -> 0 <= k -> k + 1 <= 972 ->
  fits s (k + 1) (float64.of_int z).
Proof.
  intros Hs Hz Hk HB. unfold float64.of_int.
  assert (Hd : Zdigits2 z <= k).
  { destruct (Z.abs_eq_or_opp z) as [E|E].
    - rewrite <- E. apply Zdigits2_le; lia.
    - rewrite <- Zdigits2_opp, <- E. apply Zdigits2_le; lia. }
  pose proof (Zdigits2_nonneg z).
  pose proof (binary_normalize_fits z 0 (k + 1) ltac:(lia) HB) as Hn.
  destruct z as [|p|p]; [done| |]; destruct s; try lia; exact Hn.
Qed.

Lemma Hours_fits (s : bool) d :
  minInt64 <= d <= maxInt64 -> (if s then d <= 0 else 0 <= d) ->
  fits s 25 (time.Hours d).
Proof.
  intros Hd Hs. unfold time.Hours, float64.add, float64.div, float64.prec, float64.emax.
  change (float64.of_int (60 * 60 * 1000000000))
    with (S754_finite false 7372800000000000 (-11)).
  assert (HH : time.Hour = 3600000000000) by reflexivity.
  unfold minInt64, maxInt64 in Hd.
  pose proof (Z.quot_rem d time.Hour ltac:(rewrite HH; lia)) as Hqr.
  assert (Hq : (if s then Z.quot d time.Hour <= 0 else 0 <= Z.quot d time.Hour)
               /\ Z.abs (Z.quot d time.Hour) < 2 ^ 22).
  { rewrite HH in *. destruct s.
    - pose proof (Z.quot_opp_l d 3600000000000 ltac:(lia)) as E.
      pose proof (Z.quot_pos (- d) 3600000000000 ltac:(lia) ltac:(lia)).
      pose proof (Z.quot_lt_upper_bound (- d) 3600000000000 (2 ^ 22) ltac:(lia) ltac:(lia)).
      lia.
    - pose proof (Z.quot_pos d 3600000000000 ltac:(lia) ltac:(lia)).
      pose proof (Z.quot_lt_upper_bound d 3600000000000 (2 ^ 22) ltac:(lia) ltac:(lia)).
      lia. }
  assert (Hr : (if s then Z.rem d time.Hour <= 0 else 0 <= Z.rem d time.Hour)
               /\ Z.abs (Z.rem d time.Hour) < 2 ^ 42).
  { rewrite HH in *. destruct s.
    - pose proof (Z.rem_opp_l d 3600000000000 ltac:(lia)) as E.
      pose proof (Z.rem_bound_pos (- d) 3600000000000 ltac:(lia) ltac:(lia)).
      lia.
    - pose proof (Z.rem_bound_pos d 3600000000000 ltac:(lia) ltac:(lia)).
      lia. }
  destruct Hq as [Hq1 Hq2], Hr as [Hr1 Hr2].
  eapply (SFadd_fits s 23 3).
  - apply (of_int_fits s _ 22); [done|done|lia|lia].
  - eapply (SFdiv_fits s 43 3).
    + apply (of_int_fits s _ 42); [done|done|lia|lia].
    + simpl. lia.
    + lia.
  - lia.
  - lia.
Qed.

Lemma fits_truncate s B x :
  fits s B x -> 0 <= B ->
  exists n, float64.truncate x = Some n
            /\ (if s then - 2 ^ B < n <= 0 else 0 <= n < 2 ^ B).
Proof.
  intros Hx HB. assert (0 < 2 ^ B) by (apply Z.pow_pos_nonneg; lia).
  destruct x as [sx|sx| |sx m e]; simpl in Hx; try done.
  { exists 0. split; [done|]. destruct s; lia. }
  destruct Hx as [-> Hx]. simpl.
  pose proof (Zdigits2_lt (Zpos m) ltac:(lia)) as Hm. simpl in Hm.
  set (d := Zpos (digits2_pos m)) in *.
  assert (Ht : 0 <= match e with Zneg k => Zpos m / Zpos (2 ^ k) | _ => Zpos m * 2 ^ e end < 2 ^ B).
  { destruct e as [|k|k].
    - rewrite Z.mul_1_r.
      assert (2 ^ d <= 2 ^ B) by (apply Z.pow_le_mono_r; lia). lia.
    - assert (2 ^ (d + Zpos k) <= 2 ^ B) by (apply Z.pow_le_mono_r; lia).
      rewrite Z.pow_add_r in * by lia.
      assert (0 < 2 ^ Zpos k) by (apply Z.pow_pos_nonneg; lia). nia.
    - rewrite Pos2Z.inj_pow.
      assert (0 < 2 ^ Zpos k) by (apply Z.pow_pos_nonneg; lia).
      split; [apply Z.div_pos; lia|].
      apply Z.div_lt_upper_bound; [lia|].
      assert (2 ^ d <= 2 ^ (Zpos k + B)) by (apply Z.pow_le_mono_r; lia).
      rewrite Z.pow_add_r in * by lia. lia. }
  eexists. split; [reflexivity|]. destruct s; simpl; lia.
Qed.

Lemma truncate_value x v :
  float64.value x = Some v -> float64.truncate x = Some (Qtruncate v).
Proof.
  destruct x as [sx|sx| |sx m e]; simpl; try done.
  { intros [= <-]. reflexivity. }
  intros [= <-]. f_equal. unfold Qtruncate.
  destruct e as [|k|k].
  - rewrite Qfloor_Z, Qceiling_Z. destruct (Qle_bool _ _), sx; simpl cond_Zopp; lia.
  - rewrite Qfloor_Z, Qceiling_Z. destruct (Qle_bool _ _), sx; simpl cond_Zopp; lia.
  - destruct sx; simpl; unfold Qle_bool, Qceiling, Qfloor; simpl.
    + rewrite Z.opp_involutive. reflexivity.
    + reflexivity.
Qed.

(* ===================================================================== *)
(** * The hours left, as a number *)
(* ===================================================================== *)

Lemma fits_value s B x :
  fits s B x ->
  exists v, float64.value x = Some v /\ (if s then (v <= 0)%Q else (0 <= v)%Q).
Proof.
  destruct x as [sx|sx| |sx m e]; simpl; try done.
  { intros _. exists (0 # 1)%Q. split; [done|]. destruct s; apply Qle_refl. }
  intros [-> _]. eexists. split; [reflexivity|].
  assert (0 < 2 ^ e \/ e < 0) as He.
  { destruct (Z.le_gt_cases 0 e); [left; apply Z.pow_pos_nonneg; lia|right; lia]. }
  destruct s, e as [|k|k]; unfold Qle; simpl; lia.
Qed.

Lemma Sub_range t u : minInt64 <= time.Sub t u <= maxInt64.
Proof.
  unfold time.Sub, minInt64, maxInt64.
  destruct (Z.ltb_spec (t - u) (- 2 ^ 63)); [lia|].
  destruct (Z.ltb_spec (2 ^ 63 - 1) (t - u)); lia.
Qed.

Lemma Sub_sign t u :
  (u <= t -> 0 <= time.Sub t u) /\ (t <= u -> time.Sub t u <= 0).
Proof.
  unfold time.Sub, minInt64, maxInt64.
  destruct (Z.ltb_spec (t - u) (- 2 ^ 63)); [lia|].
  destruct (Z.ltb_spec (2 ^ 63 - 1) (t - u)); lia.
Qed.

(** [Hours] of a duration is a finite number of the duration's sign, and
    its conversion to [int64] is that number with the fraction dropped. *)
Lemma int64_Hours (s : bool) d :
  minInt64 <= d <= maxInt64 -> (if s then d <= 0 else 0 <= d) ->
  exists v, float64.value (time.Hours d) = Some v
            /\ int64_of_float64 (time.Hours d) = Qtruncate v
            /\ (if s then (v <= 0)%Q /\ Qtruncate v <= 0
                else (0 <= v)%Q /\ Qtruncate v = Qfloor v).
Proof.
  intros Hd Hs. pose proof (Hours_fits s d Hd Hs) as Hf.
  destruct (fits_value _ _ _ Hf) as (v & Hv & Hsign).
  destruct (fits_truncate _ _ _ Hf ltac:(lia)) as (n & Hn & Hrange).
  pose proof (truncate_value _ _ Hv) as Ht. rewrite Hn in Ht. injection Ht as ->.
  exists v. split; [done|]. split.
  - unfold int64_of_float64. rewrite Hn. unfold minInt64, maxInt64.
    assert ((- 2 ^ 63 <=? Qtruncate v) && (Qtruncate v <=? 2 ^ 63 - 1) = true) as ->; [|done].
    apply andb_true_iff. split; apply Z.leb_le; destruct s; lia.
  - destruct s; (split; [done|]); [lia|].
    unfold Qtruncate. destruct (Qle_bool 0 v) eqn:E; [done|].
    apply Qle_bool_iff in Hsign. congruence.
Qed.

(** The hours are the ones of the [float64], not of the duration: one
    nanosecond short of 4104 hours, [Hours] rounds to 4104. *)
Example Hours_rounds_to_nearest :
  int64_of_float64 (time.Hours (4104 * time.Hour - 1)) = 4104
  /\ Z.quot (4104 * time.Hour - 1) time.Hour = 4103.
Proof. split; vm_compute; reflexivity. Qed.

Lemma Qfloor_div_24 v : (0 <= v)%Q -> Qfloor (v / 24) = Qfloor v / 24.
Proof.
  destruct v as [a b]. intros _. unfold Qdiv, Qmult, Qinv, Qfloor. simpl.
  rewrite Z.mul_1_r, Pos2Z.inj_mul, Z.div_div by lia. reflexivity.
Qed.

(* ===================================================================== *)
(** * What the inspector sends *)
(* ===================================================================== *)

Lemma sent_app evs evs' : sent (evs ++ evs') = sent evs ++ sent evs'.
Proof. apply omap_app. Qed.

Lemma sent_cons ev evs :
  sent (ev :: evs) = match ev with EvSend r => r :: sent evs | _ => sent evs end.
Proof. destruct ev; reflexivity. Qed.

Lemma sent_concat (l : list (list Event)) : sent (concat l) = concat (map sent l).
Proof.
  induction l as [|evs l IH]; simpl; [done|]. rewrite sent_app, IH. done.
Qed.

(** On a successful handshake the findings are those of the two checks,
    for every certificate of every chain. *)
Lemma sent_checkHostHttps_ok AddDate md2Now md5Now tlsDial timeNow host warnDays chains :
  inspected host -> tlsDial (dialAddress host) = DialOk chains ->
  forall r,
    r ∈ sent (checkHostHttps AddDate md2Now md5Now tlsDial timeNow host warnDays) <->
    exists chain certNum cert,
      chain ∈ chains /\ chain !! certNum = Some cert /\
      (r ∈ sent (checkExpiration AddDate timeNow (dialAddress host) warnDays cert)
       \/ r ∈ sent (checkSigAlg md2Now md5Now (dialAddress host) (length chain) certNum cert)).
Proof.
  intros [Hne Hat] Hdial r. unfold checkHostHttps.
  rewrite bool_decide_eq_false_2, bool_decide_eq_false_2 by done. simpl orb. cbv iota.
  rewrite Hdial, sent_cons, sent_app, sent_concat. simpl (sent [_; _]). rewrite app_nil_r.
  rewrite list_elem_of_In, in_concat. split.
  - intros (l & Hl & Hr). apply in_map_iff in Hl as (evs & <- & Hevs).
    apply in_map_iff in Hevs as (chain & <- & Hchain).
    unfold checkChain in Hr. rewrite sent_concat in Hr.
    apply in_concat in Hr as (l & Hl & Hr).
    apply in_map_iff in Hl as (evs & <- & Hevs).
    apply list_elem_of_In, elem_of_lookup_imap in Hevs as (certNum & cert & -> & Hcert).
    exists chain, certNum, cert. rewrite list_elem_of_In. split; [done|]. split; [done|].
    unfold checkCert in Hr. rewrite sent_app in Hr. apply in_app_or in Hr.
    rewrite !list_elem_of_In. done.
  - intros (chain & certNum & cert & Hchain & Hcert & Hr).
    exists (sent (checkChain AddDate md2Now md5Now timeNow (dialAddress host) warnDays chain)). split.
    + apply in_map, in_map, list_elem_of_In. done.
    + unfold checkChain. rewrite sent_concat. apply in_concat.
      exists (sent (checkCert AddDate md2Now md5Now timeNow (dialAddress host) warnDays (length chain) certNum cert)).
      split.
      * apply in_map, list_elem_of_In, elem_of_lookup_imap. eauto.
      * unfold checkCert. rewrite sent_app. apply in_or_app.
        rewrite <- !list_elem_of_In. done.
Qed.

Lemma dialed_app evs evs' : dialed (evs ++ evs') = dialed evs ++ dialed evs'.
Proof. apply omap_app. Qed.

Lemma dialed_checkExpiration AddDate timeNow host warnDays cert :
  dialed (checkExpiration AddDate timeNow host warnDays cert) = [].
Proof. unfold checkExpiration. repeat case_match; reflexivity. Qed.

Lemma dialed_checkSigAlg md2Now md5Now host chainLen certNum cert :
  dialed (checkSigAlg md2Now md5Now host chainLen certNum cert) = [].
Proof. unfold checkSigAlg. repeat case_match; reflexivity. Qed.

Lemma dialed_checkChain AddDate md2Now md5Now timeNow host warnDays chain :
  dialed (checkChain AddDate md2Now md5Now timeNow host warnDays chain) = [].
Proof.
  unfold checkChain. generalize (length chain). revert chain.
  assert (forall (chain : list x509.Certificate) (f : nat -> x509.Certificate -> list Event),
             (forall i c, dialed (f i c) = []) -> dialed (concat (imap f chain)) = []) as H.
  { induction chain as [|c chain IH]; intros f Hf; simpl; [done|].
    rewrite dialed_app, Hf, IH; [done|]. intros i c'. apply Hf. }
  intros chain n. apply H. intros i c. unfold checkCert.
  rewrite dialed_app, dialed_checkExpiration, dialed_checkSigAlg. done.
Qed.

(** Exactly one address is dialed for a host that is not skipped. *)
Lemma dialed_checkHostHttps AddDate md2Now md5Now tlsDial timeNow host warnDays :
  inspected host ->
  dialed (checkHostHttps AddDate md2Now md5Now tlsDial timeNow host warnDays) = [dialAddress host].
Proof.
  intros [Hne Hat]. unfold checkHostHttps.
  rewrite bool_decide_eq_false_2, bool_decide_eq_false_2 by done. simpl orb. cbv iota.
  change (dialed (EvDial "tcp" (dialAddress host) :: ?l)) with (dialAddress host :: dialed l).
  f_equal. destruct (tlsDial (dialAddress host)) as [err|chains].
  - destruct (strings.Contains _ _); reflexivity.
  - rewrite dialed_app. simpl (dialed [_; _]). rewrite app_nil_r.
    induction chains as [|chain chains IH]; simpl; [done|].
    rewrite dialed_app, dialed_checkChain, IH. done.
Qed.

Lemma Split_no_sep s sep :
  (forall c, In c (list_ascii_of_string s) -> c <> sep) -> strings.Split s sep = [s].
Proof.
  induction s as [|c s IH]; intros Hs; simpl; [done|].
  destruct (Ascii.eqb_spec c sep) as [->|Hne].
  - exfalso. apply (Hs sep); simpl; auto.
  - rewrite IH; [done|]. intros c' Hc'. apply Hs. simpl. auto.
Qed.

(** A wildcard host without a port gets the port suffix twice. *)
Lemma dialAddress_wildcard_no_port rest :
  (forall c, In c (list_ascii_of_string rest) -> c <> ":"%char) ->
  dialAddress (String "*" rest) = "abcdefzhki" +:+ (rest +:+ ":443") +:+ ":443".
Proof.
  intros Hrest. unfold dialAddress. rewrite Split_no_sep.
  - reflexivity.
  - simpl. intros c [<-|Hc]; [done|]. auto.
Qed.

(** C1 (what the code does): the wildcard host "*.example.com", which
    has no port, is not skipped and is dialed exactly once, at the
    address "abcdefzhki.example.com:443:443".  The wildcard label is
    replaced by the placeholder and the literal wildcard string is not
    dialed, but the port suffix ":443" is appended twice, not once. *)
Theorem C1_wildcard_dialed_with_port_suffix_twice AddDate
    (md2Now md5Now : time.Time) (tlsDial : string -> DialResult)
    (timeNow : time.Time) (warnDays : Z) :
  dialed (checkHostHttps AddDate md2Now md5Now tlsDial timeNow "*.example.com" warnDays)
  = ["abcdefzhki.example.com:443:443"].
Proof.
  rewrite dialed_checkHostHttps; [reflexivity|]. split; done.
Qed.

(* ===================================================================== *)
(** * The expiration check *)
(* ===================================================================== *)

(** Inside the warn window, as line 102 tests it, the check sends one
    finding, chosen by the integer hours. *)
Lemma sent_checkExpiration_in_window AddDate timeNow host warnDays cert :
  time.After (AddDate timeNow warnDays) (x509.NotAfter cert) = true ->
  sent (checkExpiration AddDate timeNow host warnDays cert)
  = [{| WarnMsg :=
          let N := int64_of_float64 (hoursRemaining timeNow cert) in
          if N <=? 48 then errExpiringShortly N else errExpiringSoon (Z.quot N 24);
        Host := host |}].
Proof.
  intros Hin. unfold checkExpiration, hoursRemaining. rewrite Hin.
  cbv zeta. destruct (_ <=? 48); reflexivity.
Qed.

Lemma sent_checkExpiration_outside AddDate timeNow host warnDays cert :
  time.After (AddDate timeNow warnDays) (x509.NotAfter cert) = false ->
  sent (checkExpiration AddDate timeNow host warnDays cert) = [].
Proof. intros Hout. unfold checkExpiration. rewrite Hout. reflexivity. Qed.

(** C2 (as stated, refuted): a chain of a leaf far from its expiry and a
    root one day from its own; the only finding sent is the expiry
    finding of the certificate in the root position. *)
Lemma C2_root_position_expiry_finding :
  let now := 1800000000 * time.Second in
  let leaf := {| x509.NotAfter := now + 400 * (24 * time.Hour);
                 x509.SignatureAlgorithm_ := x509.SHA256WithRSA |} in
  let root := {| x509.NotAfter := now + 24 * time.Hour;
                 x509.SignatureAlgorithm_ := x509.SHA256WithRSA |} in
  sent (checkHostHttps AddDate_in_UTC 0 0 (fun _ => DialOk [[leaf; root]]) now "example.com" 30)
  = [{| WarnMsg := "expires in 24 hours"; Host := "example.com:443" |}].
Proof. vm_compute. reflexivity. Qed.

(** C2 (amended): for every successfully inspected host the expiration
    check is applied to every certificate of every verified chain, the
    root position included: a certificate inside the warn window (the
    instant that [AddDate] gives for the clock and the warn days is
    after its notAfter) yields its expiry finding whatever its
    position.  Only the signature algorithm check leaves out the root
    position. *)
Theorem C2_expiry_checked_at_every_position AddDate
    md2Now md5Now tlsDial timeNow host warnDays chains chain certNum cert :
  inspected host ->
  tlsDial (dialAddress host) = DialOk chains ->
  chain ∈ chains ->
  chain !! certNum = Some cert ->
  (time.After (AddDate timeNow warnDays) (x509.NotAfter cert) = true ->
   {| WarnMsg :=
        let N := int64_of_float64 (hoursRemaining timeNow cert) in
        if N <=? 48 then errExpiringShortly N else errExpiringSoon (Z.quot N 24);
      Host := dialAddress host |}
   ∈ sent (checkHostHttps AddDate md2Now md5Now tlsDial timeNow host warnDays))
  /\ (Z.of_nat certNum = Z.of_nat (length chain) - 1 ->
      sent (checkSigAlg md2Now md5Now (dialAddress host) (length chain) certNum cert) = []).
Proof.
  intros Hhost Hdial Hchain Hcert. split.
  - intros Hin. apply (sent_checkHostHttps_ok _ _ _ _ _ _ _ _ Hhost Hdial).
    exists chain, certNum, cert. split; [done|]. split; [done|]. left.
    rewrite sent_checkExpiration_in_window by done. apply list_elem_of_singleton. reflexivity.
  - intros Hroot. unfold checkSigAlg. destruct (sunsetSigAlgs md2Now md5Now !! _); [|done].
    rewrite bool_decide_eq_false_2 by (intros Hne; apply Hne, Hroot). reflexivity.
Qed.

Lemma C2_witness :
  let now := 1800000000 * time.Second in
  let root := {| x509.NotAfter := now + 24 * time.Hour;
                 x509.SignatureAlgorithm_ := x509.SHA1WithRSA |} in
  inspected "example.com"
  /\ {| WarnMsg := "expires in 24 hours"; Host := "example.com:443" |}
     ∈ sent (checkHostHttps AddDate_in_UTC 0 0 (fun _ => DialOk [[root]]) now "example.com" 30)
  /\ sent (checkSigAlg 0 0 "example.com:443" 1 0 root) = [].
Proof.
  intros now root.
  assert (inspected "example.com") as Hhost by (split; discriminate).
  destruct (C2_expiry_checked_at_every_position AddDate_in_UTC 0 0
              (fun _ => DialOk [[root]]) now
              "example.com" 30 [[root]] [root] 0%nat root
              Hhost eq_refl (list_elem_of_here _ _) eq_refl) as [Hexp Hsig].
  split; [exact Hhost|]. split; [exact (Hexp eq_refl)|exact (Hsig eq_refl)].
Defined.

(** C4 (as stated, refuted): a certificate that expired half an hour
    ago.  The hours remaining are -1/2, whose floor is -1, but the
    finding sent says 0 hours. *)
Lemma C4_floor_fails_after_expiry :
  let now := 1800000000 * time.Second in
  let cert := {| x509.NotAfter := now - 1800 * time.Second;
                 x509.SignatureAlgorithm_ := x509.SHA256WithRSA |} in
  time.After (AddDate_in_UTC now 30) (x509.NotAfter cert) = true
  /\ (exists v, float64.value (hoursRemaining now cert) = Some v
                /\ (v == - (1 # 2))%Q /\ Qfloor v = -1)
  /\ sent (checkExpiration AddDate_in_UTC now "example.com:443" 30 cert)
     = [{| WarnMsg := "expires in 0 hours"; Host := "example.com:443" |}]
  /\ sent (checkExpiration AddDate_in_UTC now "example.com:443" 30 cert)
     <> [{| WarnMsg := errExpiringShortly (-1); Host := "example.com:443" |}].
Proof.
  intros now cert. split; [reflexivity|]. split.
  - eexists. split; [vm_compute; reflexivity|]. split; reflexivity.
  - split; [vm_compute; reflexivity|]. vm_compute. discriminate.
Qed.

(** The hours remaining always denote a number; its fraction is dropped
    downwards (the floor) for a certificate that has not expired, and
    what is left is at most 0 for one that has. *)
Lemma hoursRemaining_value timeNow cert :
  exists v, float64.value (hoursRemaining timeNow cert) = Some v
            /\ int64_of_float64 (hoursRemaining timeNow cert) = Qtruncate v
            /\ (timeNow <= x509.NotAfter cert -> (0 <= v)%Q /\ Qtruncate v = Qfloor v)
            /\ (x509.NotAfter cert <= timeNow -> Qtruncate v <= 0).
Proof.
  unfold hoursRemaining.
  set (d := time.Sub (x509.NotAfter cert) timeNow).
  pose proof (Sub_range (x509.NotAfter cert) timeNow) as Hd. fold d in Hd.
  pose proof (Sub_sign (x509.NotAfter cert) timeNow) as [Hge Hle]. fold d in Hge, Hle.
  destruct (Z.le_gt_cases 0 d) as [Hpos|Hneg].
  - destruct (int64_Hours false d Hd Hpos) as (v & Hv & HN & Hv0 & Hfl).
    exists v. split; [done|]. split; [done|]. split; [done|].
    intros Hexp. specialize (Hle Hexp).
    assert (d = 0) as Hd0 by (clear - Hpos Hle; lia).
    rewrite Hfl. rewrite Hd0 in Hv. vm_compute in Hv. injection Hv as <-. done.
  - destruct (int64_Hours true d Hd (Z.lt_le_incl _ _ Hneg)) as (v & Hv & HN & Hv0 & Hle').
    exists v. split; [done|]. split; [done|]. split; [|done].
    intros Hnow. specialize (Hge Hnow). clear - Hneg Hge. lia.
Qed.

(** The text the code builds from the integer hours is the text the
    hours remaining stand for. *)
Lemma expiryMessage_code timeNow cert :
  (let N := int64_of_float64 (hoursRemaining timeNow cert) in
   if N <=? 48 then errExpiringShortly N else errExpiringSoon (Z.quot N 24))
  = expiryMessage timeNow cert.
Proof.
  cbv zeta. unfold expiryMessage.
  destruct (hoursRemaining_value timeNow cert) as (v & Hv & HN & Hge & Hle).
  rewrite Hv, HN. cbv zeta.
  destruct (Z.leb_spec (Qtruncate v) 48) as [|Hgt]; [done|].
  destruct (Z.le_gt_cases timeNow (x509.NotAfter cert)) as [Hnow|Hexp].
  - destruct (Hge Hnow) as [Hv0 Hfl].
    rewrite Qfloor_div_24, <- Hfl by done.
    rewrite Z.quot_div_nonneg by (clear - Hgt; lia). done.
  - specialize (Hle (Z.lt_le_incl _ _ Hexp)). clear - Hgt Hle. lia.
Qed.

Lemma sent_checkExpiration_expiryMessage AddDate timeNow host warnDays cert :
  sent (checkExpiration AddDate timeNow host warnDays cert)
  = if inWindow AddDate timeNow warnDays cert
    then [{| WarnMsg := expiryMessage timeNow cert; Host := host |}]
    else [].
Proof.
  unfold inWindow. destruct (time.After _ _) eqn:E.
  - rewrite sent_checkExpiration_in_window by done. by rewrite expiryMessage_code.
  - by apply sent_checkExpiration_outside.
Qed.

Lemma append_assoc (a b c : string) : (a +:+ b) +:+ c = a +:+ b +:+ c.
Proof.
  induction a as [|x a IH]; [done|].
  change (String x ((a +:+ b) +:+ c) = String x (a +:+ b +:+ c)). by rewrite IH.
Qed.

Lemma HasPrefix_nil s : strings.HasPrefix s "" = true.
Proof. by destruct s. Qed.

Lemma HasPrefix_append p post : strings.HasPrefix (p +:+ post) p = true.
Proof.
  induction p as [|c p IH]; simpl; [apply HasPrefix_nil|].
  by rewrite Ascii.eqb_refl, IH.
Qed.

Lemma HasPrefix_spec s p :
  strings.HasPrefix s p = true <-> exists post, s = p +:+ post.
Proof.
  split; [|intros [post ->]; apply HasPrefix_append].
  revert s. induction p as [|c p IH]; intros s H.
  - by exists s.
  - destruct s as [|c' s]; simpl in H; [done|].
    apply andb_true_iff in H as [Hc Hp]. apply Ascii.eqb_eq in Hc as ->.
    destruct (IH _ Hp) as [post ->]. by exists post.
Qed.

Lemma Contains_unfold s p :
  strings.Contains s p
  = strings.HasPrefix s p
    || match s with EmptyString => false | String _ rest => strings.Contains rest p end.
Proof. by destruct s. Qed.

(** [strings.Contains] finds the phrase wherever it stands in the text,
    and nowhere else. *)
Lemma Contains_spec s p : strings.Contains s p = true <-> mentions s p.
Proof.
  unfold mentions. split.
  - induction s as [|c s IH]; cbn [strings.Contains]; rewrite orb_true_iff.
    + intros [H|H]; [|done]. apply HasPrefix_spec in H as [post H]. by exists "", post.
    + intros [H|H].
      * apply HasPrefix_spec in H as [post H]. by exists "", post.
      * destruct (IH H) as (pre & post & ->). by exists (String c pre), post.
  - intros (pre & post & ->). induction pre as [|c pre IH].
    + change ("" +:+ p +:+ post) with (p +:+ post).
      by rewrite Contains_unfold, HasPrefix_append.
    + change (String c pre +:+ p +:+ post) with (String c (pre +:+ p +:+ post)).
      rewrite Contains_unfold, IH. apply orb_true_r.
Qed.

Lemma filter_isExpiryFinding_checkExpiration AddDate timeNow host warnDays cert :
  List.filter isExpiryFinding (sent (checkExpiration AddDate timeNow host warnDays cert))
  = sent (checkExpiration AddDate timeNow host warnDays cert).
Proof.
  unfold checkExpiration. destruct (time.After _ _); [|done].
  cbv zeta. destruct (_ <=? 48); simpl; unfold isExpiryFinding; simpl;
    by rewrite HasPrefix_nil.
Qed.

Lemma filter_isExpiryFinding_checkSigAlg md2Now md5Now host chainLen certNum cert :
  List.filter isExpiryFinding (sent (checkSigAlg md2Now md5Now host chainLen certNum cert))
  = [].
Proof.
  unfold checkSigAlg. destruct (sunsetSigAlgs md2Now md5Now !! _); [|done].
  case_bool_decide; [|done]. destruct (_ || _); reflexivity.
Qed.

Lemma filter_isExpiryFinding_concat_imap
    (f : nat -> x509.Certificate -> list Event)
    (g : x509.Certificate -> list CheckResult) chain :
  (forall i c, List.filter isExpiryFinding (sent (f i c)) = g c) ->
  List.filter isExpiryFinding (sent (concat (imap f chain))) = flat_map g chain.
Proof.
  revert f. induction chain as [|c chain IH]; intros f Hf; simpl; [done|].
  rewrite sent_app, List.filter_app, Hf, IH; [done|]. intros i c'. apply Hf.
Qed.

Lemma flat_map_if_filter {A B} (p : A -> bool) (h : A -> B) l :
  flat_map (fun a => if p a then [h a] else []) l = map h (List.filter p l).
Proof.
  induction l as [|a l IH]; simpl; [done|]. rewrite IH. by destruct (p a).
Qed.

Lemma flat_map_flat_map_concat {A B} (g : A -> list B) (ls : list (list A)) :
  flat_map (flat_map g) ls = flat_map g (concat ls).
Proof.
  induction ls as [|l ls IH]; simpl; [done|]. by rewrite IH, flat_map_app.
Qed.

(** The expiry findings of a successful inspection: one for each place
    of a verified chain whose certificate is inside the window, in the
    order of the chains. *)
Lemma expiry_findings_of_host AddDate md2Now md5Now tlsDial timeNow host warnDays chains :
  inspected host ->
  tlsDial (dialAddress host) = DialOk chains ->
  List.filter isExpiryFinding
    (sent (checkHostHttps AddDate md2Now md5Now tlsDial timeNow host warnDays))
  = map (fun cert => {| WarnMsg := expiryMessage timeNow cert; Host := dialAddress host |})
        (List.filter (inWindow AddDate timeNow warnDays) (concat chains)).
Proof.
  intros [Hne Hat] Hdial. unfold checkHostHttps.
  rewrite bool_decide_eq_false_2, bool_decide_eq_false_2 by done. simpl orb. cbv iota.
  rewrite Hdial, sent_cons, sent_app. simpl (sent [_; _]). rewrite app_nil_r.
  rewrite <- flat_map_if_filter, <- flat_map_flat_map_concat. clear Hdial.
  induction chains as [|chain chains IH]; simpl; [done|].
  rewrite sent_app, List.filter_app. f_equal; [|apply IH].
  unfold checkChain. apply filter_isExpiryFinding_concat_imap. intros i c.
  unfold checkCert.
  rewrite sent_app, List.filter_app, filter_isExpiryFinding_checkExpiration,
    filter_isExpiryFinding_checkSigAlg, app_nil_r.
  apply sent_checkExpiration_expiryMessage.
Qed.

(** The messages of the three kinds of finding are told apart by their text. *)
Lemma errExpiringShortly_not_errExpired N : errExpiringShortly N <> errExpired.
Proof. unfold errExpiringShortly, errExpired. simpl. discriminate. Qed.

Lemma errExpiringSoon_not_errExpired N : errExpiringSoon N <> errExpired.
Proof. unfold errExpiringSoon, errExpired. simpl. discriminate. Qed.

Lemma errSunsetAlg_not_errExpired nm : errSunsetAlg nm <> errExpired.
Proof. unfold errSunsetAlg, errExpired. simpl. discriminate. Qed.

Lemma errSunsetAlg_not_errExpiringShortly nm N : errSunsetAlg nm <> errExpiringShortly N.
Proof. unfold errSunsetAlg, errExpiringShortly. simpl. intros [=]. Qed.

Lemma errSunsetAlg_not_errExpiringSoon nm N : errSunsetAlg nm <> errExpiringSoon N.
Proof. unfold errSunsetAlg, errExpiringSoon. simpl. intros [=]. Qed.

Lemma length_append s t :
  String.length (s +:+ t) = (String.length s + String.length t)%nat.
Proof. induction s as [|c s IH]; simpl; [done|]. by rewrite IH. Qed.

Lemma append_inj_r t s1 : forall s2, s1 +:+ t = s2 +:+ t -> s1 = s2.
Proof.
  induction s1 as [|c s1 IH]; intros [|c' s2] H; simpl in H.
  - done.
  - apply (f_equal String.length) in H. simpl in H. rewrite !length_append in H; simpl in H. lia.
  - apply (f_equal String.length) in H. simpl in H. rewrite !length_append in H; simpl in H. lia.
  - injection H as -> H. f_equal. by apply IH.
Qed.

Lemma append_inj_l p s1 s2 : p +:+ s1 = p +:+ s2 -> s1 = s2.
Proof. induction p as [|c p IH]; simpl; [done|]. intros [= H]. by apply IH. Qed.

(** The finding names the algorithm: different names, different findings. *)
Lemma errSunsetAlg_inj nm nm' : errSunsetAlg nm = errSunsetAlg nm' -> nm = nm'.
Proof.
  unfold errSunsetAlg. intros H. apply append_inj_l in H. by apply append_inj_r in H.
Qed.

Lemma elem_of_sent_checkExpiration AddDate r timeNow host warnDays cert :
  r ∈ sent (checkExpiration AddDate timeNow host warnDays cert) ->
  exists N, WarnMsg r = errExpiringShortly N \/ WarnMsg r = errExpiringSoon N.
Proof.
  unfold checkExpiration. destruct (time.After _ _); [|by intros ?%elem_of_nil].
  cbv zeta. destruct (_ <=? 48); simpl; intros ->%list_elem_of_singleton; simpl; eauto.
Qed.

Lemma elem_of_sent_checkSigAlg r md2Now md5Now host chainLen certNum cert :
  r ∈ sent (checkSigAlg md2Now md5Now host chainLen certNum cert) <->
  exists alg,
    sunsetSigAlgs md2Now md5Now !! x509.SignatureAlgorithm_ cert = Some alg
    /\ Z.of_nat certNum <> Z.of_nat chainLen - 1
    /\ sunsetsAt alg <= x509.NotAfter cert
    /\ r = {| WarnMsg := errSunsetAlg (name alg); Host := host |}.
Proof.
  unfold checkSigAlg, time.Equal, time.After.
  destruct (sunsetSigAlgs md2Now md5Now !! _) as [alg|]; cycle 1.
  { split; [by intros ?%elem_of_nil|]. by intros (? & [=] & _). }
  case_bool_decide as Hpos; cycle 1.
  { split; [by intros ?%elem_of_nil|]. intros (? & _ & ? & _). done. }
  destruct (Z.eqb_spec (x509.NotAfter cert) (sunsetsAt alg)) as [Heq|Hne];
    [|destruct (Z.ltb_spec (sunsetsAt alg) (x509.NotAfter cert)) as [Hlt|Hge]]; simpl.
  - rewrite list_elem_of_singleton. split.
    + intros ->. exists alg. repeat split; try done. lia.
    + intros (? & [= <-] & _ & _ & ->). done.
  - rewrite list_elem_of_singleton. split.
    + intros ->. exists alg. repeat split; try done. lia.
    + intros (? & [= <-] & _ & _ & ->). done.
  - split; [by intros ?%elem_of_nil|]. intros (? & [= <-] & _ & ? & _). lia.
Qed.

(** C4 (amended): on a successful handshake the expiry findings are
    exactly these, in the order of the chains: one for each place of a
    verified chain whose certificate is inside the warn window (the
    result of [AddDate] on the clock is after notAfter), and none for
    the others; a certificate that stands in two chains is reported
    twice.  The text of the finding comes from the number v that the
    hours remaining denote, with N its integer part (the fraction
    dropped toward zero, which is the floor whenever notAfter is not
    before the clock): "expires in N hours" if N is at most 48, and
    "expires in D days" with D the floor of v / 24 otherwise.  Every
    other finding of the inspection is a sunset finding. *)
Theorem C4_one_expiry_finding_in_window
    AddDate md2Now md5Now tlsDial timeNow host warnDays chains :
  inspected host ->
  tlsDial (dialAddress host) = DialOk chains ->
  let findings := sent (checkHostHttps AddDate md2Now md5Now tlsDial timeNow host warnDays) in
  List.filter isExpiryFinding findings
  = map (fun cert => {| WarnMsg := expiryMessage timeNow cert; Host := dialAddress host |})
        (List.filter (inWindow AddDate timeNow warnDays) (concat chains))
  /\ (forall cert, exists v N,
        float64.value (hoursRemaining timeNow cert) = Some v
        /\ N = Qtruncate v
        /\ (timeNow <= x509.NotAfter cert -> N = Qfloor v)
        /\ expiryMessage timeNow cert
           = if N <=? 48 then errExpiringShortly N else errExpiringSoon (Qfloor (v / 24)))
  /\ (forall r, r ∈ findings -> isExpiryFinding r = false ->
                exists nm, WarnMsg r = errSunsetAlg nm).
Proof.
  intros Hhost Hdial findings. subst findings. split; [|split].
  - by apply expiry_findings_of_host.
  - intros cert. destruct (hoursRemaining_value timeNow cert) as (v & Hv & _ & Hge & _).
    exists v, (Qtruncate v). split; [done|]. split; [done|]. split.
    + intros Hnow. by destruct (Hge Hnow).
    + unfold expiryMessage. by rewrite Hv.
  - intros r Hr Hno.
    apply (sent_checkHostHttps_ok _ _ _ _ _ _ _ _ Hhost Hdial) in Hr
      as (chain & certNum & cert & _ & _ & [Hr|Hr]).
    + exfalso.
      assert (In r (List.filter isExpiryFinding
                      (sent (checkExpiration AddDate timeNow (dialAddress host) warnDays cert))))
        as Hin by (rewrite filter_isExpiryFinding_checkExpiration; by apply list_elem_of_In).
      apply List.filter_In in Hin as [_ Hyes]. congruence.
    + apply elem_of_sent_checkSigAlg in Hr as (alg & _ & _ & _ & ->). by exists (name alg).
Qed.

Lemma C4_witness :
  let now := 1800000000 * time.Second in
  let leaf := {| x509.NotAfter := now + 240 * time.Hour + 1800 * time.Second;
                 x509.SignatureAlgorithm_ := x509.SHA256WithRSA |} in
  let issuer := {| x509.NotAfter := now + 900 * (24 * time.Hour);
                   x509.SignatureAlgorithm_ := x509.SHA256WithRSA |} in
  let root := {| x509.NotAfter := now + 3000 * (24 * time.Hour);
                 x509.SignatureAlgorithm_ := x509.SHA256WithRSA |} in
  let tlsDial := fun _ : string => DialOk [[leaf; root]; [leaf; issuer; root]] in
  inspected "example.com"
  /\ List.filter isExpiryFinding
       (sent (checkHostHttps AddDate_in_UTC 0 0 tlsDial now "example.com" 30))
     = [{| WarnMsg := "expires in 10 days"; Host := "example.com:443" |};
        {| WarnMsg := "expires in 10 days"; Host := "example.com:443" |}].
Proof.
  intros now leaf issuer root tlsDial.
  assert (inspected "example.com") as Hhost by (split; discriminate).
  split; [exact Hhost|].
  exact (proj1 (C4_one_expiry_finding_in_window AddDate_in_UTC 0 0 tlsDial now
                  "example.com" 30 [[leaf; root]; [leaf; issuer; root]] Hhost eq_refl)).
Defined.

(* ===================================================================== *)
(** * Handshake failures *)
(* ===================================================================== *)

(** C5 (as stated, refuted): the host name "certificate has expired"
    cannot be resolved, and the dial fails with the resolver's error,
    which quotes the name.  No handshake took place and no certificate
    was received, yet the inspection sends the hard-expiry finding. *)
Lemma C5_lookup_failure_reported_as_expired :
  let err := "dial tcp: lookup certificate has expired: no such host" in
  let evs := checkHostHttps AddDate_in_UTC 0 0 (fun _ => DialErr err) 0
               "certificate has expired" 30 in
  dialed evs = ["certificate has expired:443"]
  /\ sent evs = [{| WarnMsg := "SSLCertificate has expired";
                    Host := "certificate has expired:443" |}].
Proof. split; vm_compute; reflexivity. Qed.

(** C5 (amended): for a host whose dial or handshake fails, what
    decides is the text of the error.  If the text has the phrase
    "certificate has expired" somewhere in it, one finding with the
    fixed hard-expiry message is sent, for the dialed address, and
    nothing is logged; the error of the certificate verification for an
    expired certificate, "x509: certificate has expired or is not yet
    valid", is such a text under any wrapping.  If the text does not
    have the phrase, nothing is sent and the host is logged as skipped
    with the error. *)
Theorem C5_finding_decided_by_error_text
    AddDate md2Now md5Now tlsDial timeNow host warnDays err :
  inspected host ->
  tlsDial (dialAddress host) = DialErr err ->
  let evs := checkHostHttps AddDate md2Now md5Now tlsDial timeNow host warnDays in
  (mentions err "certificate has expired" ->
     evs = [EvDial "tcp" (dialAddress host);
            EvSend {| WarnMsg := errExpired; Host := dialAddress host |}])
  /\ (forall pre post,
        err = pre +:+ "x509: certificate has expired or is not yet valid" +:+ post ->
        sent evs = [{| WarnMsg := errExpired; Host := dialAddress host |}])
  /\ (~ mentions err "certificate has expired" ->
      evs = [EvDial "tcp" (dialAddress host);
             EvLog ["WARN skip check"; dialAddress host; err]]).
Proof.
  intros [Hne Hat] Hdial evs. subst evs. unfold checkHostHttps.
  rewrite bool_decide_eq_false_2, bool_decide_eq_false_2 by done. simpl orb. cbv iota.
  rewrite Hdial. split; [|split].
  - intros Hm. apply Contains_spec in Hm. by rewrite Hm.
  - intros pre post ->.
    assert (strings.Contains
              (pre +:+ "x509: certificate has expired or is not yet valid" +:+ post)
              "certificate has expired" = true) as ->; [|done].
    apply Contains_spec. exists (pre +:+ "x509: "), (" or is not yet valid" +:+ post).
    rewrite append_assoc. reflexivity.
  - intros Hm. destruct (strings.Contains err _) eqn:E; [|done].
    exfalso. by apply Hm, Contains_spec.
Qed.

Lemma C5_witness :
  let err := "tls: failed to verify certificate: x509: certificate has expired or is not yet valid: current time 2027-01-15T08:00:00Z is after 2026-12-31T23:59:59Z" in
  inspected "expired.example.com"
  /\ mentions err "certificate has expired"
  /\ checkHostHttps AddDate_in_UTC 0 0 (fun _ => DialErr err) 0 "expired.example.com" 30
     = [EvDial "tcp" "expired.example.com:443";
        EvSend {| WarnMsg := "SSLCertificate has expired";
                  Host := "expired.example.com:443" |}].
Proof.
  intros err.
  assert (inspected "expired.example.com") as Hhost by (split; discriminate).
  assert (mentions err "certificate has expired") as Hm.
  { exists "tls: failed to verify certificate: x509: ",
      " or is not yet valid: current time 2027-01-15T08:00:00Z is after 2026-12-31T23:59:59Z".
    reflexivity. }
  split; [exact Hhost|]. split; [exact Hm|].
  exact (proj1 (C5_finding_decided_by_error_text AddDate_in_UTC 0 0 (fun _ => DialErr err) 0
                  "expired.example.com" 30 err Hhost eq_refl) Hm).
Defined.

(* ===================================================================== *)
(** * The signature algorithm check *)
(* ===================================================================== *)

(** C6: on a successful handshake, a finding naming a deprecated
    algorithm is sent if and only if some certificate of some verified
    chain has a signature algorithm of that name in the policy table, is
    not in the last (root) position of its chain, and expires at or
    after the algorithm's sunset date.  In particular nothing comes from
    a root position, and whether the finding is sent does not depend on
    the warn window or the clock, which only the expiration check reads. *)
Theorem C6_sunset_finding AddDate md2Now md5Now tlsDial timeNow host warnDays chains :
  inspected host ->
  tlsDial (dialAddress host) = DialOk chains ->
  (forall nm,
     {| WarnMsg := errSunsetAlg nm; Host := dialAddress host |}
     ∈ sent (checkHostHttps AddDate md2Now md5Now tlsDial timeNow host warnDays)
     <->
     exists chain certNum cert alg,
       chain ∈ chains /\ chain !! certNum = Some cert
       /\ sunsetSigAlgs md2Now md5Now !! x509.SignatureAlgorithm_ cert = Some alg
       /\ name alg = nm
       /\ Z.of_nat certNum <> Z.of_nat (length chain) - 1
       /\ sunsetsAt alg <= x509.NotAfter cert)
  /\ (forall chain cert,
        chain ∈ chains -> last chain = Some cert ->
        sent (checkSigAlg md2Now md5Now (dialAddress host) (length chain)
                (length chain - 1) cert) = [])
  /\ (forall nm timeNow' warnDays',
        {| WarnMsg := errSunsetAlg nm; Host := dialAddress host |}
        ∈ sent (checkHostHttps AddDate md2Now md5Now tlsDial timeNow host warnDays)
        <->
        {| WarnMsg := errSunsetAlg nm; Host := dialAddress host |}
        ∈ sent (checkHostHttps AddDate md2Now md5Now tlsDial timeNow' host warnDays')).
Proof.
  intros Hhost Hdial.
  assert (forall now days nm,
     {| WarnMsg := errSunsetAlg nm; Host := dialAddress host |}
     ∈ sent (checkHostHttps AddDate md2Now md5Now tlsDial now host days)
     <->
     exists chain certNum cert alg,
       chain ∈ chains /\ chain !! certNum = Some cert
       /\ sunsetSigAlgs md2Now md5Now !! x509.SignatureAlgorithm_ cert = Some alg
       /\ name alg = nm
       /\ Z.of_nat certNum <> Z.of_nat (length chain) - 1
       /\ sunsetsAt alg <= x509.NotAfter cert) as Hiff.
  { intros now days nm.
    rewrite (sent_checkHostHttps_ok _ _ _ _ _ _ _ _ Hhost Hdial). split.
    - intros (chain & certNum & cert & Hchain & Hcert & [Hexp|Hsig]).
      + apply elem_of_sent_checkExpiration in Hexp as (N & [E|E]); simpl in E.
        * by apply errSunsetAlg_not_errExpiringShortly in E.
        * by apply errSunsetAlg_not_errExpiringSoon in E.
      + apply elem_of_sent_checkSigAlg in Hsig as (alg & Halg & Hpos & Hdate & E).
        apply (f_equal WarnMsg) in E. cbn [WarnMsg] in E. apply errSunsetAlg_inj in E.
        exists chain, certNum, cert, alg. done.
    - intros (chain & certNum & cert & alg & Hchain & Hcert & Halg & <- & Hpos & Hdate).
      exists chain, certNum, cert. split; [done|]. split; [done|]. right.
      apply elem_of_sent_checkSigAlg. exists alg. done. }
  split; [apply Hiff|]. split.
  - intros chain cert Hchain Hlast.
    destruct (sent (checkSigAlg _ _ _ _ _ _)) as [|r l] eqn:E; [done|exfalso].
    assert (r ∈ sent (checkSigAlg md2Now md5Now (dialAddress host) (length chain)
                        (length chain - 1) cert)) as Hr by (rewrite E; apply list_elem_of_here).
    apply elem_of_sent_checkSigAlg in Hr as (alg & _ & Hpos & _).
    destruct chain; [done|]. simpl length in Hpos. lia.
  - intros nm timeNow' warnDays'. rewrite !Hiff. done.
Qed.

Lemma C6_witness :
  let now := 1800000000 * time.Second in
  let leaf := {| x509.NotAfter := now + 90 * (24 * time.Hour);
                 x509.SignatureAlgorithm_ := x509.SHA1WithRSA |} in
  let root := {| x509.NotAfter := now + 900 * (24 * time.Hour);
                 x509.SignatureAlgorithm_ := x509.SHA1WithRSA |} in
  inspected "example.com"
  /\ {| WarnMsg := errSunsetAlg "SHA1 with RSA"; Host := "example.com:443" |}
     ∈ sent (checkHostHttps AddDate_in_UTC 0 0 (fun _ => DialOk [[leaf; root]]) now "example.com" 30)
  /\ ~ {| WarnMsg := errSunsetAlg "MD5 with RSA"; Host := "example.com:443" |}
       ∈ sent (checkHostHttps AddDate_in_UTC 0 0 (fun _ => DialOk [[leaf; root]]) now "example.com" 30).
Proof.
  intros now leaf root.
  assert (inspected "example.com") as Hhost by (split; discriminate).
  pose proof (C6_sunset_finding AddDate_in_UTC 0 0 (fun _ => DialOk [[leaf; root]]) now
                "example.com" 30
                [[leaf; root]] Hhost eq_refl) as [Hiff _].
  split; [exact Hhost|]. split.
  - apply Hiff. exists [leaf; root], 0%nat, leaf.
    eexists. split; [apply list_elem_of_here|]. split; [reflexivity|].
    split; [vm_compute; reflexivity|]. split; [reflexivity|]. split; [discriminate|].
    vm_compute. discriminate.
  - intros H. apply Hiff in H as (chain & certNum & cert & alg & Hchain & Hcert & Halg & Hname & _).
    apply list_elem_of_singleton in Hchain as ->.
    destruct certNum as [|[|certNum]]; simpl in Hcert; try discriminate;
      injection Hcert as <-; vm_compute in Halg; injection Halg as <-; discriminate.
Defined.

(* ===================================================================== *)
(** * Certificates that have already expired *)
(* ===================================================================== *)

(** C10 (as stated, refuted): with no warn window (warnDays = 0, for
    which [AddDate] gives the clock back), a certificate of a verified
    chain that expires at the very instant the clock is read is at its
    expiry, and nothing is sent for it. *)
Lemma C10_no_finding_at_expiry_instant :
  let now := 1800000000 * time.Second in
  let cert := {| x509.NotAfter := now;
                 x509.SignatureAlgorithm_ := x509.SHA256WithRSA |} in
  x509.NotAfter cert <= now
  /\ sent (checkHostHttps AddDate_in_UTC 0 0 (fun _ => DialOk [[cert]]) now "example.com" 0) = [].
Proof. split; [reflexivity|]. vm_compute. reflexivity. Qed.

(** C10 (amended): on a successful handshake, every certificate of a
    verified chain that expires at or before the current time and
    passes the window test of the code (the instant that [AddDate]
    gives for the clock and the warn days is after its notAfter; being
    expired does not imply it) yields the finding "expires in N hours",
    with N the hours remaining with the fraction dropped and N at most
    0; and no finding of a successful handshake carries the hard-expiry
    message. *)
Theorem C10_expired_chain_certificate AddDate
    md2Now md5Now tlsDial timeNow host warnDays chains chain certNum cert :
  inspected host ->
  tlsDial (dialAddress host) = DialOk chains ->
  chain ∈ chains ->
  chain !! certNum = Some cert ->
  x509.NotAfter cert <= timeNow ->
  time.After (AddDate timeNow warnDays) (x509.NotAfter cert) = true ->
  (exists v N,
     float64.value (hoursRemaining timeNow cert) = Some v
     /\ N = Qtruncate v /\ N <= 0
     /\ {| WarnMsg := errExpiringShortly N; Host := dialAddress host |}
        ∈ sent (checkHostHttps AddDate md2Now md5Now tlsDial timeNow host warnDays))
  /\ (forall r, r ∈ sent (checkHostHttps AddDate md2Now md5Now tlsDial timeNow host warnDays) ->
                WarnMsg r <> errExpired).
Proof.
  intros Hhost Hdial Hchain Hcert Hexp Hin. split.
  - pose proof (Sub_range (x509.NotAfter cert) timeNow) as Hd.
    pose proof (proj2 (Sub_sign (x509.NotAfter cert) timeNow) Hexp) as Hneg.
    destruct (int64_Hours true _ Hd Hneg) as (v & Hv & HN & Hv0 & Hle).
    exists v, (Qtruncate v). split; [exact Hv|]. split; [done|]. split; [done|].
    apply (sent_checkHostHttps_ok _ _ _ _ _ _ _ _ Hhost Hdial).
    exists chain, certNum, cert. split; [done|]. split; [done|]. left.
    rewrite sent_checkExpiration_in_window by done. cbv zeta.
    unfold hoursRemaining. rewrite HN.
    destruct (Z.leb_spec (Qtruncate v) 48) as [|Hgt]; [apply list_elem_of_here|].
    clear - Hgt Hle. lia.
  - intros r Hr. apply (sent_checkHostHttps_ok _ _ _ _ _ _ _ _ Hhost Hdial) in Hr
      as (chain' & certNum' & cert' & _ & _ & [Hr|Hr]).
    + apply elem_of_sent_checkExpiration in Hr as (N & [-> | ->]).
      * apply errExpiringShortly_not_errExpired.
      * apply errExpiringSoon_not_errExpired.
    + apply elem_of_sent_checkSigAlg in Hr as (alg & _ & _ & _ & ->).
      apply errSunsetAlg_not_errExpired.
Qed.

Lemma C10_witness :
  let now := 1800000000 * time.Second in
  let cert := {| x509.NotAfter := now - 3 * time.Hour - 1800 * time.Second;
                 x509.SignatureAlgorithm_ := x509.SHA256WithRSA |} in
  inspected "example.com"
  /\ (exists v N,
        float64.value (hoursRemaining now cert) = Some v
        /\ N = Qtruncate v /\ N <= 0
        /\ {| WarnMsg := errExpiringShortly N; Host := dialAddress "example.com" |}
           ∈ sent (checkHostHttps AddDate_in_UTC 0 0 (fun _ => DialOk [[cert]]) now "example.com" 30)).
Proof.
  intros now cert.
  assert (inspected "example.com") as Hhost by (split; discriminate).
  split; [exact Hhost|].
  refine (proj1 (C10_expired_chain_certificate AddDate_in_UTC 0 0
                   (fun _ => DialOk [[cert]]) now
                   "example.com" 30 [[cert]] [cert] 0%nat cert
                   Hhost eq_refl _ eq_refl _ eq_refl)).
  - apply list_elem_of_here.
  - vm_compute. discriminate.
Defined.

(* ===================================================================== *)
(** * The aggregator *)
(* ===================================================================== *)

Section SendFacts.

Variable rangeOrder : gmap string (list string) -> list (string * list string).
Variable dn : DDingNotify.

Lemma Send_from_app msgs inputs inputs' :
  Send_from rangeOrder dn msgs (inputs ++ inputs')
  = let '(evs, msgs') := Send_from rangeOrder dn msgs inputs in
    let '(evs', msgs'') := Send_from rangeOrder dn msgs' inputs' in
    (evs ++ evs', msgs'').
Proof.
  revert msgs. induction inputs as [|i inputs IH]; intros msgs; simpl.
  - destruct (Send_from _ _ _ inputs') as [evs' msgs'']. done.
  - destruct (Send_step _ _ msgs i) as [evs1 msgs1]. rewrite IH.
    destruct (Send_from _ _ msgs1 inputs) as [evs2 msgs2].
    destruct (Send_from _ _ msgs2 inputs') as [evs3 msgs3].
    by rewrite app_assoc.
Qed.

Lemma Send_step_tick_empty msgs resp :
  snd (Send_step rangeOrder dn msgs (Tick resp)) = ∅.
Proof.
  simpl. case_bool_decide as Hsize; simpl; [|done].
  by apply map_size_empty_iff.
Qed.

Lemma hostsWith_snoc m w r :
  hostsWith m (w ++ [r])
  = hostsWith m w ++ (if decide (WarnMsg r = m) then [Host r] else []).
Proof.
  unfold hostsWith. rewrite filter_app, fmap_app. f_equal.
  rewrite filter_cons, filter_nil. by destruct (decide _).
Qed.

Lemma holds_step msgs w i :
  holds msgs w ->
  holds (snd (Send_step rangeOrder dn msgs i))
        (match i with Recv r => w ++ [r] | Tick _ => [] end).
Proof.
  intros Hinv. destruct i as [r|resp].
  - intros m. simpl. rewrite hostsWith_snoc.
    destruct (decide (WarnMsg r = m)) as [<-|Hne].
    + rewrite lookup_insert_eq, lookup_total_alt, (Hinv (WarnMsg r)).
      destruct (hostsWith (WarnMsg r) w); done.
    + rewrite lookup_insert_ne, app_nil_r by done. apply Hinv.
  - rewrite Send_step_tick_empty. intros m. by rewrite lookup_empty.
Qed.

Lemma holds_Send_from inputs : forall msgs w,
  holds msgs w ->
  holds (snd (Send_from rangeOrder dn msgs inputs))
        (fold_left (fun acc i => match i with Recv r => acc ++ [r] | Tick _ => [] end)
                   inputs w).
Proof.
  induction inputs as [|i inputs IH]; intros msgs w Hinv; simpl; [done|].
  pose proof (holds_step msgs w i Hinv) as Hstep.
  destruct (Send_step _ _ msgs i) as [evs1 msgs1]. simpl in Hstep.
  specialize (IH _ _ Hstep).
  destruct (Send_from _ _ msgs1 inputs) as [evs2 msgs2]. exact IH.
Qed.

End SendFacts.

(** C3: on a tick with an empty buffer nothing is posted and the buffer
    stays empty; on a tick with a non-empty buffer exactly one payload
    is posted to the notifier's URL, the buffered messages each followed
    by their hosts and joined by newlines, and the buffer is empty
    afterwards whether the POST succeeded or failed.  Hence the buffer
    is empty after every tick. *)
Theorem C3_tick_flushes_and_clears
    (rangeOrder : gmap string (list string) -> list (string * list string))
    (dn : DDingNotify) (msgs : gmap string (list string)) (resp : PostResult) :
  (msgs = ∅ ->
     posts (fst (Send_step rangeOrder dn msgs (Tick resp))) = []
     /\ snd (Send_step rangeOrder dn msgs (Tick resp)) = ∅)
  /\ (msgs <> ∅ ->
     fst (Send_step rangeOrder dn msgs (Tick resp))
     = [NPost (url dn) contentType
          (newDMessage
             (strings.Join (flat_map (fun '(msg, hosts) => msg :: hosts) (rangeOrder msgs))
                newline) None false);
        match resp with
        | PostErr err => NLog ["ERROR DDing Notify send failed"; err]
        | PostOk body => NLog ["DEBUG dding response"; body]
        end]
     /\ length (posts (fst (Send_step rangeOrder dn msgs (Tick resp)))) = 1%nat
     /\ snd (Send_step rangeOrder dn msgs (Tick resp)) = ∅)
  /\ (forall inputs, snd (Send rangeOrder dn (inputs ++ [Tick resp])) = ∅).
Proof.
  split; [|split].
  - intros ->. split; [|apply Send_step_tick_empty]. simpl.
    rewrite bool_decide_eq_true_2 by apply map_size_empty. done.
  - intros Hne. simpl.
    rewrite bool_decide_eq_false_2 by (by rewrite map_size_empty_iff).
    simpl. destruct resp; done.
  - intros inputs. unfold Send. rewrite Send_from_app.
    destruct (Send_from _ _ ∅ inputs) as [evs msgs'].
    pose proof (Send_step_tick_empty rangeOrder dn msgs' resp) as Hstep.
    cbn [Send_from]. destruct (Send_step _ _ msgs' (Tick resp)) as [evs' msgs'']. done.
Qed.

Lemma C3_witness :
  let msgs : gmap string (list string) := {[ "expires in 10 days" := ["a.example.com:443"] ]} in
  let step := Send_step map_to_list {| url := "https://sink.example/hook" |} msgs
                (Tick (PostErr "context deadline exceeded")) in
  msgs <> ∅ /\ length (posts (fst step)) = 1%nat /\ snd step = ∅.
Proof.
  intros msgs step.
  assert (msgs <> ∅) as Hne by apply insert_non_empty.
  destruct (C3_tick_flushes_and_clears map_to_list {| url := "https://sink.example/hook" |}
              msgs (PostErr "context deadline exceeded")) as (_ & Hflush & _).
  destruct (Hflush Hne) as (_ & Hone & Hclear).
  split; [exact Hne|]. split; [exact Hone|exact Hclear].
Defined.

(** C9: whatever findings and ticks the aggregator has received, its
    buffer maps each message text carried by a finding received since
    the last tick to the hosts of exactly those findings, in the order
    they arrived, and holds no other key.  In particular two hosts with
    the same message are in the one bucket of that message. *)
Theorem C9_buffer_buckets_by_message
    (rangeOrder : gmap string (list string) -> list (string * list string))
    (dn : DDingNotify) (inputs : list Input) :
  (forall m,
     snd (Send rangeOrder dn inputs) !! m
     = match hostsWith m (window inputs) with [] => None | hs => Some hs end)
  /\ (forall m h1 h2,
        snd (Send rangeOrder dn
               (inputs ++ [Tick (PostOk ""); Recv {| WarnMsg := m; Host := h1 |};
                           Recv {| WarnMsg := m; Host := h2 |}]))
        = {[ m := [h1; h2] ]}).
Proof.
  assert (forall inputs' m,
     snd (Send rangeOrder dn inputs') !! m
     = match hostsWith m (window inputs') with [] => None | hs => Some hs end) as Hall.
  { intros inputs'. apply (holds_Send_from rangeOrder dn inputs' ∅ []).
    intros m. by rewrite lookup_empty. }
  split; [apply Hall|].
  intros m h1 h2. apply map_eq. intros m'. rewrite Hall.
  unfold window. rewrite fold_left_app. simpl. unfold hostsWith.
  rewrite !filter_cons, filter_nil. simpl.
  destruct (decide (m = m')) as [->|Hne].
  - by rewrite lookup_singleton_eq.
  - by rewrite lookup_singleton_ne.
Qed.

Lemma C9_witness :
  snd (Send map_to_list {| url := "https://sink.example/hook" |}
         ([] ++ [Tick (PostOk "");
                 Recv {| WarnMsg := "expires in 10 days"; Host := "a.example.com:443" |};
                 Recv {| WarnMsg := "expires in 10 days"; Host := "b.example.com:443" |}]))
  = {[ "expires in 10 days" := ["a.example.com:443"; "b.example.com:443"] ]}.
Proof.
  exact (proj2 (C9_buffer_buckets_by_message map_to_list
                  {| url := "https://sink.example/hook" |} [])
               "expires in 10 days" "a.example.com:443" "b.example.com:443").
Defined.

(* ===================================================================== *)
(** * The remote DNS provider: retries *)
(* ===================================================================== *)

Lemma calls_app evs evs' : calls (evs ++ evs') = calls evs ++ calls evs'.
Proof. apply omap_app. Qed.

Lemma calls_out (f : string -> string) l : calls (map (fun RR => POut (f RR)) l) = [].
Proof. induction l; simpl; done. Qed.

Lemma hostnames_out (f : string -> string) l :
  hostnames (map (fun RR => POut (f RR)) l) = map f l.
Proof. induction l as [|x l IH]; simpl; [done|]. unfold hostnames in *. simpl. by rewrite IH. Qed.

Section FetchFacts.

Variable client : DescribeDomainRecordsRequest -> nat -> CallResult.
Variable req : DescribeDomainRecordsRequest.
Variable domain : string.

(** When every remaining attempt fails, each one is made and the loop
    gives up with -1. *)
Lemma fetchLoop_all_fail remaining : forall retry lastErr,
  (forall k, (k < remaining)%nat -> succeeds (client req (retry + k)) = false) ->
  exists err,
    fetchLoop client req domain remaining retry lastErr
    = (replicate remaining (PCall req), (-1, err)).
Proof.
  induction remaining as [|n IH]; intros retry lastErr Hfail; simpl.
  - eauto.
  - pose proof (Hfail 0%nat ltac:(lia)) as H0. rewrite Nat.add_0_r in H0.
    assert (forall k, (k < n)%nat -> succeeds (client req (S retry + k)) = false) as Hrest.
    { intros k Hk. replace (S retry + k)%nat with (retry + S k)%nat by lia.
      apply Hfail. lia. }
    destruct (client req retry) as [err|code RRs total]; simpl in H0.
    + destruct (IH (S retry) (Some err) Hrest) as [err' ->]. eauto.
    + rewrite H0. destruct (IH (S retry) None Hrest) as [err' ->]. eauto.
Qed.

(** The loop stops at the first attempt that succeeds. *)
Lemma fetchLoop_first_success remaining : forall retry lastErr k,
  (k < remaining)%nat ->
  succeeds (client req (retry + k)) = true ->
  (forall j, (j < k)%nat -> succeeds (client req (retry + j)) = false) ->
  exists RRs cnt,
    fetchLoop client req domain remaining retry lastErr
    = (replicate (S k) (PCall req) ++ map (fun RR => POut (RR +:+ "." +:+ domain)) RRs,
       (cnt, None)).
Proof.
  induction remaining as [|n IH]; intros retry lastErr k Hk Hok Hfail; [lia|].
  simpl. destruct k as [|k].
  - rewrite Nat.add_0_r in Hok.
    destruct (client req retry) as [err|code RRs total]; simpl in Hok; [done|].
    rewrite Hok. eauto.
  - pose proof (Hfail 0%nat ltac:(lia)) as H0. rewrite Nat.add_0_r in H0.
    assert (succeeds (client req (S retry + k)) = true) as Hok'.
    { replace (S retry + k)%nat with (retry + S k)%nat by lia. done. }
    assert (forall j, (j < k)%nat -> succeeds (client req (S retry + j)) = false) as Hfail'.
    { intros j Hj. replace (S retry + j)%nat with (retry + S j)%nat by lia.
      apply Hfail. lia. }
    destruct (client req retry) as [err|code RRs total]; simpl in H0.
    + destruct (IH (S retry) (Some err) k ltac:(lia) Hok' Hfail') as (RRs & cnt & ->). eauto.
    + rewrite H0.
      destruct (IH (S retry) None k ltac:(lia) Hok' Hfail') as (RRs' & cnt & ->). eauto.
Qed.

(** Never more attempts than the bound, all of the same request. *)
Lemma fetchLoop_calls remaining : forall retry lastErr,
  exists k, (k <= remaining)%nat
            /\ calls (fst (fetchLoop client req domain remaining retry lastErr))
               = replicate k req.
Proof.
  induction remaining as [|n IH]; intros retry lastErr; simpl.
  - exists 0%nat. done.
  - destruct (client req retry) as [err|code RRs total].
    + destruct (IH (S retry) (Some err)) as (k & Hk & Hcalls).
      destruct (fetchLoop _ _ _ n _ _) as [evs r]. exists (S k). simpl in *.
      split; [lia|]. unfold calls in *. simpl. by rewrite Hcalls.
    + destruct (code =? http_StatusOK).
      * exists 1%nat. split; [lia|]. simpl. unfold calls. simpl.
        fold (calls (map (fun RR => POut (RR +:+ "." +:+ domain)) RRs)).
        by rewrite (calls_out (fun RR => RR +:+ "." +:+ domain)).
      * destruct (IH (S retry) None) as (k & Hk & Hcalls).
        destruct (fetchLoop _ _ _ n _ _) as [evs r]. exists (S k). simpl in *.
        split; [lia|]. unfold calls in *. simpl. by rewrite Hcalls.
Qed.

End FetchFacts.

(** The loop reads the remote API only through the answers to its own
    request. *)
Lemma fetchLoop_ext client client' req domain remaining : forall retry lastErr,
  (forall n, client' req n = client req n) ->
  fetchLoop client' req domain remaining retry lastErr
  = fetchLoop client req domain remaining retry lastErr.
Proof.
  induction remaining as [|n IH]; intros retry lastErr Hext; simpl; [done|].
  rewrite Hext. destruct (client req retry) as [err|code RRs total].
  - by rewrite IH.
  - destruct (code =? http_StatusOK); [done|]. by rewrite IH.
Qed.

(** C7: for every (domain, record type) unit of the remote DNS
    provider: a page fetch makes at most 3 attempts, all of the same
    request, and stops at the first one that succeeds; when the first
    page fails on all 3 attempts the unit is abandoned, with a warning
    logged, no further page fetched and no hostname sent; and however
    the remote API answers the requests of this unit, every other unit
    does exactly what it would have done. *)
Theorem C7_page_fetch_bounded_retry
    (client : DescribeDomainRecordsRequest -> nat -> CallResult)
    (domain dnsType : string) :
  (forall page pageSize,
     let req := {| Lang := "en"; PageSize := pageSize; PageNumber := page;
                   DomainName := domain; Type__ := dnsType; Status := enable |} in
     let run := fetchWithRetry client domain dnsType page pageSize in
     (exists k, (k <= 3)%nat /\ calls (fst run) = replicate k req)
     /\ (forall k, (k < 3)%nat ->
           succeeds (client req k) = true ->
           (forall j, (j < k)%nat -> succeeds (client req j) = false) ->
           calls (fst run) = replicate (S k) req)
     /\ ((forall k, (k < 3)%nat -> succeeds (client req k) = false) ->
           calls (fst run) = replicate 3 req
           /\ hostnames (fst run) = [] /\ fst (snd run) = -1))
  /\ ((forall k, (k < 3)%nat ->
         succeeds (client {| Lang := "en"; PageSize := defaultSize; PageNumber := 1;
                             DomainName := domain; Type__ := dnsType;
                             Status := enable |} k) = false) ->
      unitHostnames (getRecords client domain dnsType) = []
      /\ pages (getRecords client domain dnsType) = []
      /\ exists err, last (main (getRecords client domain dnsType))
                     = Some (PLog ("Get domain " +:+ domain +:+ " total page failed " +:+ err)))
  /\ (forall client' domain' dnsType',
        (forall req n, client' req n = client req n
                       \/ (DomainName req = domain /\ Type__ req = dnsType)) ->
        (domain', dnsType') <> (domain, dnsType) ->
        getRecords client' domain' dnsType' = getRecords client domain' dnsType').
Proof.
  split; [|split].
  - intros page pageSize req run. subst run. unfold fetchWithRetry. fold req.
    split; [apply fetchLoop_calls|]. split.
    + intros k Hk Hok Hfail.
      destruct (fetchLoop_first_success client req domain maxRetry 0 None k Hk Hok Hfail)
        as (RRs & cnt & ->).
      cbn [fst]. rewrite calls_app, (calls_out (fun RR => RR +:+ "." +:+ domain)), app_nil_r.
      clear. induction (S k) as [|n IH]; [done|]. simpl. unfold calls in *. simpl. by rewrite IH.
    + intros Hfail.
      destruct (fetchLoop_all_fail client req domain maxRetry 0 None Hfail) as [err ->].
      done.
  - intros Hfail. unfold getRecords, fetchWithRetry.
    destruct (fetchLoop_all_fail client _ domain maxRetry 0 None Hfail) as [err ->].
    replace (bool_decide (err <> None) || (-1 <? 0)) with true by (by rewrite orb_true_r).
    split; [done|]. split; [done|]. exists (fmt_s_error err). done.
  - intros client' domain' dnsType' Hsame Hother.
    assert (forall page pageSize n,
              client' {| Lang := "en"; PageSize := pageSize; PageNumber := page;
                         DomainName := domain'; Type__ := dnsType'; Status := enable |} n
              = client {| Lang := "en"; PageSize := pageSize; PageNumber := page;
                          DomainName := domain'; Type__ := dnsType'; Status := enable |} n)
      as Hext.
    { intros page pageSize n. destruct (Hsame {| Lang := "en"; PageSize := pageSize;
        PageNumber := page; DomainName := domain'; Type__ := dnsType'; Status := enable |} n)
        as [E|[E1 E2]]; [done|]. simpl in E1, E2. congruence. }
    unfold getRecords, fetchWithRetry.
    rewrite (fetchLoop_ext client client') by (intros n; apply Hext).
    destruct (fetchLoop client _ domain' maxRetry 0 None) as [evs [totalPage err]].
    destruct (bool_decide (err <> None) || (totalPage <? 0)); [done|].
    f_equal. apply map_ext. intros page.
    by rewrite (fetchLoop_ext client client') by (intros n; apply Hext).
Qed.

Lemma C7_witness :
  let client := fun (req : DescribeDomainRecordsRequest) (n : nat) =>
    if String.eqb (DomainName req) "bad.example" && String.eqb (Type__ req) "A"
    then CallErr "i/o timeout" else CallResp 200 ["www"] 1 in
  unitHostnames (getRecords client "bad.example" "A") = []
  /\ pages (getRecords client "bad.example" "A") = []
  /\ getRecords (fun _ _ => CallResp 200 ["www"] 1) "good.example" "A"
     = getRecords client "good.example" "A".
Proof.
  intros client.
  destruct (C7_page_fetch_bounded_retry client "bad.example" "A") as (_ & Hfail & Hiso).
  destruct Hfail as (Hnone & Hpages & _); [intros k Hk; reflexivity|].
  split; [exact Hnone|]. split; [exact Hpages|].
  apply Hiso; [|discriminate].
  intros req n. unfold client.
  destruct (String.eqb_spec (DomainName req) "bad.example") as [Hd|Hd];
    destruct (String.eqb_spec (Type__ req) "A") as [Ht|Ht]; simpl; auto.
Defined.

(* ===================================================================== *)
(** * Missing configuration options *)
(* ===================================================================== *)

(** C8 (what the code does): a provider whose required option is
    absent ends in the fatal log path, which is what [ProviderConfig.Get]
    does for every absent key; but the notifier's [NotifyConfig.Get] has
    no such test, and a "dding" notifier without "url" ends in a panic
    of the type assertion. *)
Theorem C8_missing_option_fatal_for_provider_panic_for_notifier :
  (forall pc key, Addition pc !! key = None ->
                  ProviderConfig_Get pc key = Fatal [key; "not exist"])
  /\ NewProvider {| Name := "hosts"; ProviderType := "file"; Addition := ∅; Domains := [] |}
     = Fatal ["filePath"; "not exist"]
  /\ (forall nc key, Config nc !! key = None ->
                     NotifyConfig_Get nc key
                     = Panic "interface conversion: interface {} is nil, not string")
  /\ NewNotify {| Type_ := "dding"; Config := ∅ |}
     = Panic "interface conversion: interface {} is nil, not string".
Proof.
  split; [|split; [|split]].
  - intros pc key Hkey. unfold ProviderConfig_Get, lookupAny. by rewrite Hkey.
  - reflexivity.
  - intros nc key Hkey. unfold NotifyConfig_Get, lookupAny. by rewrite Hkey.
  - reflexivity.
Qed.

(* ===================================================================== *)
(** * Further properties of the inspector *)
(* ===================================================================== *)

Lemma Split_length_pos s sep : (1 <= length (strings.Split s sep))%nat.
Proof.
  induction s as [|c s IH]; simpl; [lia|].
  destruct (Ascii.eqb c sep); simpl; [lia|].
  destruct (strings.Split s sep); simpl in *; lia.
Qed.

Lemma Split_sep s sep :
  In sep (list_ascii_of_string s) -> (2 <= length (strings.Split s sep))%nat.
Proof.
  induction s as [|c s IH]; simpl; [done|].
  destruct (Ascii.eqb_spec c sep) as [->|Hne].
  - intros _. pose proof (Split_length_pos s sep). simpl. lia.
  - intros [?|Hin]; [done|]. specialize (IH Hin).
    destruct (strings.Split s sep); simpl in *; lia.
Qed.

Lemma countByte_append c s t :
  countByte c (s +:+ t) = (countByte c s + countByte c t)%nat.
Proof. induction s as [|c' s IH]; simpl; [done|]. rewrite IH. lia. Qed.

Lemma countByte_In c s : In c (list_ascii_of_string s) <-> (1 <= countByte c s)%nat.
Proof.
  induction s as [|c' s IH]; simpl; [split; [done|lia]|].
  destruct (Ascii.eqb_spec c' c) as [->|Hne].
  - split; [lia|auto].
  - rewrite <- IH. simpl. split; [intros [?|?]; done|auto].
Qed.

(** X1: a host that does not begin with the wildcard marker is dialed
    at the host itself when it contains a colon, and at the host
    followed by ":443" when it contains none; the address dialed is a
    fixed point: normalising it again changes nothing. *)
Theorem X1_dialAddress_plain_host host :
  byte0 host <> Some "*"%char ->
  ((1 <= countByte ":" host)%nat -> dialAddress host = host)
  /\ (countByte ":" host = 0%nat -> dialAddress host = host +:+ ":443")
  /\ dialAddress (dialAddress host) = dialAddress host.
Proof.
  intros Hstar.
  assert (Hcolon : forall h, byte0 h <> Some "*"%char ->
                             (1 <= countByte ":" h)%nat -> dialAddress h = h).
  { intros h Hh Hin%countByte_In. unfold dialAddress.
    pose proof (Split_sep h ":"%char Hin) as Hlen.
    destruct (Nat.eqb_spec (length (strings.Split h ":"%char)) 1) as [E|_]; [lia|].
    by rewrite bool_decide_eq_false_2. }
  assert (Hbare : countByte ":" host = 0%nat -> dialAddress host = host +:+ ":443").
  { intros Hnin. unfold dialAddress. rewrite Split_no_sep; cycle 1.
    { intros c Hc ->. apply countByte_In in Hc. lia. }
    simpl. rewrite bool_decide_eq_false_2; [done|].
    destruct host as [|c host]; [done|exact Hstar]. }
  split; [by apply Hcolon|]. split; [done|].
  destruct (Nat.eq_dec (countByte ":" host) 0%nat) as [Hnin|Hin].
  - rewrite (Hbare Hnin). apply Hcolon.
    + destruct host as [|c host]; [done|exact Hstar].
    + rewrite countByte_append. simpl. lia.
  - rewrite (Hcolon host Hstar ltac:(lia)). apply Hcolon; [done|lia].
Qed.

Lemma X1_witness :
  byte0 "example.com" <> Some "*"%char
  /\ dialAddress "example.com" = "example.com:443"
  /\ dialAddress "example.com:8443" = "example.com:8443"
  /\ dialAddress (dialAddress "example.com") = dialAddress "example.com".
Proof.
  assert (byte0 "example.com" <> Some "*"%char) as H by discriminate.
  assert (byte0 "example.com:8443" <> Some "*"%char) as H' by discriminate.
  split; [exact H|].
  destruct (X1_dialAddress_plain_host "example.com" H) as (_ & Hbare & Hidem).
  destruct (X1_dialAddress_plain_host "example.com:8443" H') as (Hcolon & _ & _).
  split; [|split; [|exact Hidem]].
  - apply Hbare. reflexivity.
  - apply Hcolon. simpl. lia.
Defined.

(** X2: for every host that begins with the wildcard marker, the
    address dialed is the placeholder label, then the rest of the host
    (with ":443" added when the host had no colon), then ":443" once
    more; so it never begins with the marker, and always holds at least
    two colons. *)
Theorem X2_dialAddress_wildcard_host rest :
  dialAddress (String "*" rest)
  = "abcdefzhki"
    +:+ (if (countByte ":" rest =? 0)%nat then rest +:+ ":443" else rest)
    +:+ ":443"
  /\ byte0 (dialAddress (String "*" rest)) = Some "a"%char
  /\ (2 <= countByte ":" (dialAddress (String "*" rest)))%nat.
Proof.
  assert (dialAddress (String "*" rest)
          = "abcdefzhki"
            +:+ (if (countByte ":" rest =? 0)%nat then rest +:+ ":443" else rest)
            +:+ ":443") as E.
  { destruct (Nat.eqb_spec (countByte ":" rest) 0%nat) as [Hnin|Hin].
    - apply dialAddress_wildcard_no_port. intros c Hc ->. apply countByte_In in Hc. lia.
    - unfold dialAddress.
      assert (In ":"%char (list_ascii_of_string (String "*" rest))) as Hcol.
      { simpl. right. apply countByte_In. lia. }
      pose proof (Split_sep (String "*" rest) ":"%char Hcol) as Hlen.
      destruct (Nat.eqb_spec (length (strings.Split (String "*" rest) ":"%char)) 1) as [?|_];
        [lia|]. reflexivity. }
  split; [exact E|]. rewrite E. split; [reflexivity|].
  rewrite !countByte_append. destruct (Nat.eqb_spec (countByte ":" rest) 0%nat) as [Hnin|Hin].
  - rewrite countByte_append. simpl. lia.
  - simpl. lia.
Qed.

Lemma elem_of_sent_checkExpiration_host AddDate r timeNow host warnDays cert :
  r ∈ sent (checkExpiration AddDate timeNow host warnDays cert) -> Host r = host.
Proof.
  unfold checkExpiration. destruct (time.After _ _); [|by intros ?%elem_of_nil].
  cbv zeta. destruct (_ <=? 48); simpl; by intros ->%list_elem_of_singleton.
Qed.

(** X3: every finding that the inspection of a host sends, on a failed
    handshake or a successful one, names as its host the address that
    was dialed (port included), not the hostname as it was received. *)
Theorem X3_findings_name_the_dialed_address AddDate
    md2Now md5Now tlsDial timeNow host warnDays :
  Forall (fun r => Host r = dialAddress host)
         (sent (checkHostHttps AddDate md2Now md5Now tlsDial timeNow host warnDays)).
Proof.
  apply Forall_forall. intros r Hr.
  destruct (decide (inspected host)) as [Hhost|Hskip].
  - destruct (tlsDial (dialAddress host)) as [err|chains] eqn:Hdial.
    + destruct Hhost as [Hne Hat]. unfold checkHostHttps in Hr.
      rewrite bool_decide_eq_false_2, bool_decide_eq_false_2 in Hr by done.
      simpl orb in Hr. cbv iota in Hr. rewrite Hdial in Hr.
      destruct (strings.Contains err _); simpl in Hr.
      * by apply list_elem_of_singleton in Hr as ->.
      * by apply elem_of_nil in Hr.
    + apply (sent_checkHostHttps_ok _ _ _ _ _ _ _ _ Hhost Hdial) in Hr
        as (chain & certNum & cert & _ & _ & [Hr|Hr]).
      * by apply elem_of_sent_checkExpiration_host in Hr.
      * apply elem_of_sent_checkSigAlg in Hr as (alg & _ & _ & _ & ->). done.
  - exfalso. unfold checkHostHttps in Hr.
    destruct (bool_decide (host = "")) eqn:E1; simpl in Hr; [by apply elem_of_nil in Hr|].
    destruct (bool_decide (byte0 host = Some "@"%char)) eqn:E2; simpl in Hr;
      [by apply elem_of_nil in Hr|].
    apply Hskip. split; [by apply bool_decide_eq_false in E1|by apply bool_decide_eq_false in E2].
Qed.

(** X4: on a successful handshake the inspection of a host sends no
    finding at all if and only if, for every certificate of every
    verified chain, the instant that [AddDate] gives for the clock and
    the warn days is not after its notAfter and, when its signature
    algorithm is in the policy table and it is not in the root
    position, its notAfter is strictly before the algorithm's sunset
    date. *)
Theorem X4_no_finding_iff_all_certificates_pass AddDate
    md2Now md5Now tlsDial timeNow host warnDays chains :
  inspected host ->
  tlsDial (dialAddress host) = DialOk chains ->
  sent (checkHostHttps AddDate md2Now md5Now tlsDial timeNow host warnDays) = []
  <->
  (forall chain certNum cert,
     chain ∈ chains -> chain !! certNum = Some cert ->
     AddDate timeNow warnDays <= x509.NotAfter cert
     /\ (forall alg,
           sunsetSigAlgs md2Now md5Now !! x509.SignatureAlgorithm_ cert = Some alg ->
           Z.of_nat certNum <> Z.of_nat (length chain) - 1 ->
           x509.NotAfter cert < sunsetsAt alg)).
Proof.
  intros Hhost Hdial.
  pose proof (sent_checkHostHttps_ok AddDate md2Now md5Now tlsDial timeNow host warnDays chains
                Hhost Hdial) as Hsent.
  split.
  - intros Hnil chain certNum cert Hchain Hcert.
    assert (forall r, ~ (r ∈ sent (checkExpiration AddDate timeNow (dialAddress host) warnDays cert)
                         \/ r ∈ sent (checkSigAlg md2Now md5Now (dialAddress host)
                                       (length chain) certNum cert))) as Hnone.
    { intros r Hr.
      assert (r ∈ sent (checkHostHttps AddDate md2Now md5Now tlsDial timeNow host warnDays)) as Hin
        by (apply Hsent; eauto 10).
      rewrite Hnil in Hin. by apply elem_of_nil in Hin. }
    split.
    + destruct (time.After (AddDate timeNow warnDays) (x509.NotAfter cert)) eqn:E.
      * exfalso. eapply Hnone. left.
        rewrite sent_checkExpiration_in_window by done. apply list_elem_of_here.
      * unfold time.After in E. by apply Z.ltb_ge in E.
    + intros alg Halg Hpos.
      destruct (Z.lt_ge_cases (x509.NotAfter cert) (sunsetsAt alg)) as [|Hge]; [done|].
      exfalso. eapply Hnone. right. apply elem_of_sent_checkSigAlg.
      exists alg. split; [done|]. split; [done|]. split; [lia|reflexivity].
  - intros Hall.
    destruct (sent (checkHostHttps _ _ _ _ _ _ _)) as [|r l] eqn:E; [done|exfalso].
    assert (r ∈ r :: l) as Hr by apply list_elem_of_here.
    apply Hsent in Hr as (chain & certNum & cert & Hchain & Hcert & [Hr|Hr]);
      destruct (Hall chain certNum cert Hchain Hcert) as [Hwin Hsig].
    + rewrite sent_checkExpiration_outside in Hr; [by apply elem_of_nil in Hr|].
      unfold time.After. by apply Z.ltb_ge.
    + apply elem_of_sent_checkSigAlg in Hr as (alg & Halg & Hpos & Hdate & _).
      specialize (Hsig alg Halg Hpos). lia.
Qed.

Lemma X4_witness :
  let now := 1800000000 * time.Second in
  let leaf := {| x509.NotAfter := now + 90 * (24 * time.Hour);
                 x509.SignatureAlgorithm_ := x509.SHA256WithRSA |} in
  let root := {| x509.NotAfter := now + 900 * (24 * time.Hour);
                 x509.SignatureAlgorithm_ := x509.SHA1WithRSA |} in
  inspected "example.com"
  /\ sent (checkHostHttps AddDate_in_UTC 0 0 (fun _ => DialOk [[leaf; root]]) now "example.com" 30) = [].
Proof.
  intros now leaf root.
  assert (inspected "example.com") as Hhost by (split; discriminate).
  split; [exact Hhost|].
  apply (proj2 (X4_no_finding_iff_all_certificates_pass AddDate_in_UTC 0 0
                  (fun _ => DialOk [[leaf; root]])
                  now "example.com" 30 [[leaf; root]] Hhost eq_refl)).
  intros chain certNum cert Hchain Hcert.
  apply list_elem_of_singleton in Hchain. subst chain.
  destruct certNum as [|[|certNum]]; simpl in Hcert; try discriminate Hcert;
    injection Hcert as <-.
  - split; [vm_compute; discriminate|]. intros alg Halg _. vm_compute in Halg. discriminate Halg.
  - split; [vm_compute; discriminate|]. intros alg _ Hpos. exfalso. apply Hpos. reflexivity.
Defined.

(** X5: every finding that an inspection sends carries one of four
    messages: the hard-expiry message; "expires in N hours" with N at
    most 48; "expires in D days" with D at least 2; or the sunset
    message for a name of the policy table. *)
Theorem X5_messages_of_findings AddDate md2Now md5Now tlsDial timeNow host warnDays :
  Forall (fun r =>
            WarnMsg r = errExpired
            \/ (exists N, N <= 48 /\ WarnMsg r = errExpiringShortly N)
            \/ (exists D, 2 <= D /\ WarnMsg r = errExpiringSoon D)
            \/ (exists sigAlg alg, sunsetSigAlgs md2Now md5Now !! sigAlg = Some alg
                                   /\ WarnMsg r = errSunsetAlg (name alg)))
         (sent (checkHostHttps AddDate md2Now md5Now tlsDial timeNow host warnDays)).
Proof.
  apply Forall_forall. intros r Hr.
  unfold checkHostHttps in Hr.
  destruct (bool_decide (host = "")) eqn:E1; simpl in Hr; [by apply elem_of_nil in Hr|].
  destruct (bool_decide (byte0 host = Some "@"%char)) eqn:E2; simpl in Hr;
    [by apply elem_of_nil in Hr|].
  apply bool_decide_eq_false in E1, E2.
  destruct (tlsDial (dialAddress host)) as [err|chains] eqn:Hdial.
  - destruct (strings.Contains err _); simpl in Hr.
    + apply list_elem_of_singleton in Hr as ->. by left.
    + by apply elem_of_nil in Hr.
  - assert (r ∈ sent (checkHostHttps AddDate md2Now md5Now tlsDial timeNow host warnDays)) as Hr'.
    { unfold checkHostHttps.
      rewrite bool_decide_eq_false_2, bool_decide_eq_false_2 by done. simpl orb. cbv iota.
      by rewrite Hdial. }
    apply (sent_checkHostHttps_ok _ _ _ _ _ _ _ _ (conj E1 E2) Hdial) in Hr'
      as (chain & certNum & cert & _ & _ & [Hexp|Hsig]).
    + right. unfold checkExpiration in Hexp.
      destruct (time.After _ _); [|by apply elem_of_nil in Hexp]. cbv zeta in Hexp.
      destruct (Z.leb_spec (int64_of_float64 (time.Hours (time.Sub (x509.NotAfter cert) timeNow))) 48)
        as [Hle|Hgt]; simpl in Hexp; apply list_elem_of_singleton in Hexp as ->.
      * left. eauto.
      * right. left. eexists. split; [|reflexivity].
        apply Z.quot_le_lower_bound; lia.
    + right. right. right.
      apply elem_of_sent_checkSigAlg in Hsig as (alg & Halg & _ & _ & ->). eauto.
Qed.

Lemma length_sent_checkCert AddDate md2Now md5Now timeNow host warnDays chainLen certNum cert :
  (length (sent (checkCert AddDate md2Now md5Now timeNow host warnDays chainLen certNum cert)) <= 2)%nat.
Proof.
  unfold checkCert, checkExpiration, checkSigAlg. rewrite sent_app, length_app.
  repeat case_match; simpl; lia.
Qed.

Lemma length_sent_concat_imap (f : nat -> x509.Certificate -> list Event) chain :
  (forall i c, (length (sent (f i c)) <= 2)%nat) ->
  (length (sent (concat (imap f chain))) <= 2 * length chain)%nat.
Proof.
  revert f. induction chain as [|c chain IH]; intros f Hf; simpl; [lia|].
  rewrite sent_app, length_app. specialize (IH (f ∘ S) (fun i c' => Hf (S i) c')).
  specialize (Hf 0%nat c). lia.
Qed.

(** X6: one inspection sends at most one finding when the handshake
    fails, and at most two per certificate of the verified chains when
    it succeeds. *)
Theorem X6_number_of_findings AddDate md2Now md5Now tlsDial timeNow host warnDays :
  (length (sent (checkHostHttps AddDate md2Now md5Now tlsDial timeNow host warnDays))
   <= match tlsDial (dialAddress host) with
      | DialErr _ => 1
      | DialOk chains => 2 * length (concat chains)
      end)%nat.
Proof.
  unfold checkHostHttps.
  destruct (bool_decide (host = "") || bool_decide (byte0 host = Some "@"%char)).
  { simpl. destruct (tlsDial _); lia. }
  rewrite sent_cons. destruct (tlsDial (dialAddress host)) as [err|chains].
  - destruct (strings.Contains err _); simpl; lia.
  - rewrite sent_app. simpl (sent [_; _]). rewrite app_nil_r.
    induction chains as [|chain chains IH]; simpl; [lia|].
    rewrite sent_app, !length_app.
    pose proof (length_sent_concat_imap
                  (checkCert AddDate md2Now md5Now timeNow (dialAddress host) warnDays (length chain))
                  chain
                  (length_sent_checkCert AddDate md2Now md5Now timeNow (dialAddress host) warnDays
                     (length chain))) as Hchain.
    unfold checkChain at 1. lia.
Qed.

(* ===================================================================== *)
(** * From the hosts file to the dial *)
(* ===================================================================== *)

Lemma dialed_checkHostHttps_any AddDate md2Now md5Now tlsDial timeNow host warnDays :
  dialed (checkHostHttps AddDate md2Now md5Now tlsDial timeNow host warnDays)
  = if dialable host then [dialAddress host] else [].
Proof.
  unfold dialable.
  destruct (bool_decide (host = "")) eqn:E1;
    [unfold checkHostHttps; by rewrite E1|].
  destruct (bool_decide (byte0 host = Some "@"%char)) eqn:E2;
    [unfold checkHostHttps; by rewrite E1, E2|].
  simpl. apply dialed_checkHostHttps.
  split; [by apply bool_decide_eq_false in E1|by apply bool_decide_eq_false in E2].
Qed.

Lemma concat_dialed_imap (g : nat -> string -> list Event) (D : string -> list string) hosts :
  (forall i h, dialed (g i h) = D h) ->
  concat (map dialed (imap g hosts)) = flat_map D hosts.
Proof.
  revert g. induction hosts as [|h hosts IH]; intros g Hg; simpl; [done|].
  rewrite Hg. f_equal. apply IH. intros i h'. apply Hg.
Qed.

Lemma hostnames_app evs evs' : hostnames (evs ++ evs') = hostnames evs ++ hostnames evs'.
Proof. apply omap_app. Qed.

(** X7: the hosts file, read by the file provider and fed to the
    inspector.  When the file cannot be read nothing is sent to the
    inspector and nothing is dialed.  Otherwise the hosts sent are the
    trimmed lines that are neither empty nor comments ([#]), in the
    order of the file, and the addresses dialed are those of the lines
    that are, besides, not disabled ([@]), one dial per such line. *)
Theorem X7_hosts_file_to_dials AddDate
    (TrimSpace : string -> string) (readFile : string -> ReadFileResult) (file : string)
    md2Now md5Now (tlsDial : nat -> string -> DialResult) (clock : nat -> time.Time) warnDays :
  let hosts := hostnames (FileProvider_GetAllRecords TrimSpace readFile file) in
  let runs := Check AddDate md2Now md5Now tlsDial clock hosts warnDays in
  match readFile file with
  | ReadFileErr err => hosts = [] /\ runs = []
  | ReadFileOk contents =>
      let lines := map TrimSpace (strings.Split contents (ascii_of_nat 10)) in
      hosts = List.filter listed lines
      /\ concat (map dialed runs)
         = map dialAddress (List.filter (fun h => listed h && dialable h) lines)
  end.
Proof.
  intros hosts runs. subst runs hosts. unfold FileProvider_GetAllRecords.
  destruct (readFile file) as [err|contents]; [done|]. cbv zeta.
  set (lines := strings.Split contents (ascii_of_nat 10)).
  assert (hostnames
            (flat_map (fun line =>
               if (String.length (TrimSpace line) =? 0)%nat
                  || bool_decide (byte0 (TrimSpace line) = Some "#"%char)
               then [] else [POut (TrimSpace line)]) lines)
          = List.filter listed (map TrimSpace lines)) as ->.
  { induction lines as [|line lines IH]; simpl; [done|].
    rewrite hostnames_app, IH. unfold listed.
    destruct (_ || _); reflexivity. }
  split; [done|]. unfold Check.
  rewrite (concat_dialed_imap _ (fun h => if dialable h then [dialAddress h] else []))
    by (intros i h; apply dialed_checkHostHttps_any).
  induction (map TrimSpace lines) as [|h l IH]; simpl; [done|].
  destruct (listed h); simpl; [|done]. rewrite IH. by destruct (dialable h).
Qed.

(* ===================================================================== *)
(** * Further properties of the aggregator *)
(* ===================================================================== *)

Lemma flat_map_bucket_length (l : list (string * list string)) :
  length (flat_map (fun '(msg, hosts) => msg :: hosts) l)
  = (length l + sum_list_with (fun kv => length kv.2) l)%nat.
Proof.
  induction l as [|[m hs] l IH]; simpl; [done|]. rewrite length_app, IH. lia.
Qed.

Section MoreSendFacts.

Variable rangeOrder : gmap string (list string) -> list (string * list string).
Variable dn : DDingNotify.

Lemma holds_Send inputs : holds (snd (Send rangeOrder dn inputs)) (window inputs).
Proof.
  apply (holds_Send_from rangeOrder dn inputs ∅ []). intros m. by rewrite lookup_empty.
Qed.

(** The buffer lists as many hosts as findings were received since the
    last tick. *)
Lemma buffered_Send_from inputs : forall msgs w,
  sum_list_with (fun kv : string * list string => length kv.2) (map_to_list msgs) = length w ->
  sum_list_with (fun kv : string * list string => length kv.2)
    (map_to_list (snd (Send_from rangeOrder dn msgs inputs)))
  = length (fold_left (fun acc i => match i with Recv r => acc ++ [r] | Tick _ => [] end)
                      inputs w).
Proof.
  induction inputs as [|i inputs IH]; intros msgs w Hsum; simpl; [done|].
  assert (sum_list_with (fun kv : string * list string => length kv.2)
            (map_to_list (snd (Send_step rangeOrder dn msgs i)))
          = length (match i with Recv r => w ++ [r] | Tick _ => [] end)) as Hstep.
  { destruct i as [r|resp].
    - simpl. rewrite length_app. simpl. rewrite lookup_total_alt.
      destruct (msgs !! WarnMsg r) as [hs|] eqn:E; simpl.
      + rewrite <- (insert_delete_eq msgs).
        rewrite map_to_list_insert by apply lookup_delete_eq.
        rewrite <- Hsum, <- (map_to_list_delete msgs (WarnMsg r) hs E).
        simpl. rewrite length_app. simpl. lia.
      + rewrite map_to_list_insert by done. simpl. lia.
    - rewrite Send_step_tick_empty, map_to_list_empty. done. }
  destruct (Send_step rangeOrder dn msgs i) as [evs1 msgs1]. simpl in Hstep.
  specialize (IH _ _ Hstep).
  destruct (Send_from rangeOrder dn msgs1 inputs) as [evs2 msgs2]. exact IH.
Qed.

Lemma posts_app evs evs' : posts (evs ++ evs') = posts evs ++ posts evs'.
Proof. apply omap_app. Qed.

Lemma posts_Send_from inputs : forall msgs,
  length (posts (fst (Send_from rangeOrder dn msgs inputs)))
  = flushes (negb (bool_decide (msgs = ∅))) inputs.
Proof.
  induction inputs as [|i inputs IH]; intros msgs; simpl; [done|].
  destruct i as [r|resp].
  - specialize (IH (<[WarnMsg r := (msgs !!! WarnMsg r) ++ [Host r]]> msgs)).
    simpl. destruct (Send_from _ _ _ inputs) as [evs msgs']. simpl in *.
    rewrite IH, bool_decide_eq_false_2 by apply insert_non_empty. done.
  - simpl. case_bool_decide as Hsize.
    + apply map_size_empty_iff in Hsize as ->. specialize (IH ∅).
      destruct (Send_from _ _ ∅ inputs) as [evs msgs']. simpl in *.
      rewrite IH, bool_decide_eq_true_2 by done. done.
    + specialize (IH ∅). destruct (Send_from _ _ ∅ inputs) as [evs msgs']. simpl in *.
      rewrite bool_decide_eq_false_2 by (by rewrite <- map_size_empty_iff).
      rewrite bool_decide_eq_true_2 in IH by done. simpl.
      destruct resp; simpl; by rewrite IH.
Qed.

End MoreSendFacts.

(** X8: no finding is lost before a flush.  Whatever was received, at
    the next tick every finding received since the tick before is in
    the one payload posted: the lines of the payload hold its message
    followed at once by the hosts received with that message, in the
    order they arrived, its own host among them. *)
Theorem X8_flush_carries_every_finding
    (rangeOrder : gmap string (list string) -> list (string * list string))
    (dn : DDingNotify) (inputs : list Input) (resp : PostResult) (r : CheckResult) :
  rangeOrder (snd (Send rangeOrder dn inputs))
    ≡ₚ map_to_list (snd (Send rangeOrder dn inputs)) ->
  r ∈ window inputs ->
  exists before after,
    posts (fst (Send_step rangeOrder dn (snd (Send rangeOrder dn inputs)) (Tick resp)))
    = [newDMessage
         (strings.Join (before ++ (WarnMsg r :: hostsWith (WarnMsg r) (window inputs)) ++ after)
            newline) None false]
    /\ Host r ∈ hostsWith (WarnMsg r) (window inputs).
Proof.
  intros Hperm Hr.
  pose proof (holds_Send rangeOrder dn inputs) as Hinv.
  set (msgs := snd (Send rangeOrder dn inputs)) in *.
  assert (Host r ∈ hostsWith (WarnMsg r) (window inputs)) as Hhost.
  { unfold hostsWith. apply list_elem_of_fmap. exists r. split; [done|].
    by apply list_elem_of_filter. }
  assert (msgs !! WarnMsg r = Some (hostsWith (WarnMsg r) (window inputs))) as Hbucket.
  { rewrite (Hinv (WarnMsg r)). destruct (hostsWith _ _); [by apply elem_of_nil in Hhost|done]. }
  assert ((WarnMsg r, hostsWith (WarnMsg r) (window inputs)) ∈ rangeOrder msgs) as Hin.
  { rewrite Hperm. by apply elem_of_map_to_list. }
  apply list_elem_of_split in Hin as (l1 & l2 & Hl).
  exists (flat_map (fun '(msg, hosts) => msg :: hosts) l1),
         (flat_map (fun '(msg, hosts) => msg :: hosts) l2).
  split; [|done]. simpl.
  rewrite bool_decide_eq_false_2; cycle 1.
  { rewrite map_size_empty_iff. intros E. rewrite E, lookup_empty in Hbucket. done. }
  simpl. rewrite Hl, flat_map_app. simpl. destruct resp; reflexivity.
Qed.

Lemma X8_witness :
  let inputs := [Recv {| WarnMsg := "expires in 10 days"; Host := "a.example.com:443" |};
                 Recv {| WarnMsg := "expires in 3 hours"; Host := "b.example.com:443" |};
                 Recv {| WarnMsg := "expires in 10 days"; Host := "c.example.com:443" |}] in
  exists before after,
    posts (fst (Send_step map_to_list {| url := "https://sink.example/hook" |}
                  (snd (Send map_to_list {| url := "https://sink.example/hook" |} inputs))
                  (Tick (PostErr "timeout"))))
    = [newDMessage
         (strings.Join (before ++ ("expires in 10 days"
                                   :: hostsWith "expires in 10 days" (window inputs)) ++ after)
            newline) None false]
    /\ "c.example.com:443" ∈ hostsWith "expires in 10 days" (window inputs).
Proof.
  intros inputs.
  apply (X8_flush_carries_every_finding map_to_list {| url := "https://sink.example/hook" |}
           inputs (PostErr "timeout")
           {| WarnMsg := "expires in 10 days"; Host := "c.example.com:443" |}).
  - reflexivity.
  - apply list_elem_of_further, list_elem_of_further, list_elem_of_here.
Defined.

(** X9: the payload of a flush has one line per message of the buffer
    and one line per finding received since the tick before: no host is
    dropped and none is merged, a host received twice is listed twice. *)
Theorem X9_payload_line_count
    (rangeOrder : gmap string (list string) -> list (string * list string))
    (dn : DDingNotify) (inputs : list Input) :
  rangeOrder (snd (Send rangeOrder dn inputs))
    ≡ₚ map_to_list (snd (Send rangeOrder dn inputs)) ->
  length (flat_map (fun '(msg, hosts) => msg :: hosts)
            (rangeOrder (snd (Send rangeOrder dn inputs))))
  = (size (snd (Send rangeOrder dn inputs)) + length (window inputs))%nat.
Proof.
  intros Hperm. rewrite flat_map_bucket_length, Hperm, length_map_to_list. f_equal.
  apply (buffered_Send_from rangeOrder dn inputs ∅ []).
  by rewrite map_to_list_empty.
Qed.

Lemma X9_witness :
  let inputs := [Recv {| WarnMsg := "expires in 10 days"; Host := "a.example.com:443" |};
                 Recv {| WarnMsg := "expires in 3 hours"; Host := "b.example.com:443" |};
                 Recv {| WarnMsg := "expires in 10 days"; Host := "a.example.com:443" |}] in
  length (flat_map (fun '(msg, hosts) => msg :: hosts)
            (map_to_list (snd (Send map_to_list {| url := "https://sink.example/hook" |} inputs))))
  = (size (snd (Send map_to_list {| url := "https://sink.example/hook" |} inputs))
     + length (window inputs))%nat.
Proof.
  intros inputs.
  apply (X9_payload_line_count map_to_list {| url := "https://sink.example/hook" |} inputs).
  reflexivity.
Defined.

(** X10: over any sequence of findings and ticks, the aggregator posts
    exactly once for each tick that finds at least one finding received
    since the tick before, and never otherwise: a tick that follows a
    tick posts nothing, and so does a tick before the first finding. *)
Theorem X10_one_post_per_nonempty_window
    (rangeOrder : gmap string (list string) -> list (string * list string))
    (dn : DDingNotify) (inputs : list Input) :
  length (posts (fst (Send rangeOrder dn inputs))) = flushes false inputs.
Proof.
  unfold Send. rewrite posts_Send_from. by rewrite bool_decide_eq_true_2.
Qed.

(* ===================================================================== *)
(** * Further properties of the remote DNS provider *)
(* ===================================================================== *)

(** What the loop returns when attempt [k] is the first to succeed. *)
Lemma fetchLoop_first_success_result client req domain remaining :
  forall retry lastErr k RRs TotalCount,
  (k < remaining)%nat ->
  client req (retry + k)%nat = CallResp http_StatusOK RRs TotalCount ->
  (forall j, (j < k)%nat -> succeeds (client req (retry + j)%nat) = false) ->
  fetchLoop client req domain remaining retry lastErr
  = (replicate (S k) (PCall req) ++ map (fun RR => POut (RR +:+ "." +:+ domain)) RRs,
     (if negb (Z.rem TotalCount defaultSize =? 0)
      then Z.quot TotalCount defaultSize + 1 else Z.quot TotalCount defaultSize,
      None)).
Proof.
  induction remaining as [|n IH]; intros retry lastErr k RRs TotalCount Hk Hok Hfail; [lia|].
  simpl. destruct k as [|k].
  - rewrite Nat.add_0_r in Hok. rewrite Hok. reflexivity.
  - pose proof (Hfail 0%nat ltac:(lia)) as H0. rewrite Nat.add_0_r in H0.
    assert (client req (S retry + k)%nat = CallResp http_StatusOK RRs TotalCount) as Hok'.
    { replace (S retry + k)%nat with (retry + S k)%nat by lia. done. }
    assert (forall j, (j < k)%nat -> succeeds (client req (S retry + j)%nat) = false) as Hfail'.
    { intros j Hj. replace (S retry + j)%nat with (retry + S j)%nat by lia.
      apply Hfail. lia. }
    destruct (client req retry) as [err|code RRs' total']; simpl in H0.
    + rewrite (IH (S retry) (Some err) k RRs TotalCount ltac:(lia) Hok' Hfail'). reflexivity.
    + rewrite H0.
      rewrite (IH (S retry) None k RRs TotalCount ltac:(lia) Hok' Hfail'). reflexivity.
Qed.

Lemma ceil_div_100 T :
  0 <= T ->
  (if negb (Z.rem T defaultSize =? 0) then Z.quot T defaultSize + 1 else Z.quot T defaultSize)
  = (T + 99) / 100.
Proof.
  intros HT. unfold defaultSize.
  rewrite Z.rem_mod_nonneg, Z.quot_div_nonneg by lia.
  pose proof (Z.div_mod T 100 ltac:(lia)) as Hdm.
  pose proof (Z.mod_pos_bound T 100 ltac:(lia)) as Hb.
  destruct (Z.eqb_spec (T mod 100) 0) as [E|E]; simpl.
  - apply Z.div_unique with (r := 99); lia.
  - apply Z.div_unique with (r := T mod 100 - 1); lia.
Qed.

(** X11: when attempt [k] of a page fetch is the first to succeed, the
    hostnames sent are the records of that one response, each followed
    by a dot and the domain, in order (the failed attempts send
    nothing, so no record is sent twice); and for a total count that is
    not negative the page count returned is the total count divided by
    100, rounded up. *)
Theorem X11_fetch_success_hostnames_and_page_count
    (client : DescribeDomainRecordsRequest -> nat -> CallResult)
    (domain dnsType : string) (page pageSize : Z) (k : nat) (RRs : list string) (T : Z) :
  let req := {| Lang := "en"; PageSize := pageSize; PageNumber := page;
                DomainName := domain; Type__ := dnsType; Status := enable |} in
  (k < 3)%nat ->
  client req k = CallResp 200 RRs T ->
  (forall j, (j < k)%nat -> succeeds (client req j) = false) ->
  0 <= T ->
  let run := fetchWithRetry client domain dnsType page pageSize in
  hostnames (fst run) = map (fun RR => RR +:+ "." +:+ domain) RRs
  /\ snd run = ((T + 99) / 100, None)
  /\ 100 * ((T + 99) / 100 - 1) < T <= 100 * ((T + 99) / 100).
Proof.
  intros req Hk Hok Hfail HT run. subst run. unfold fetchWithRetry. fold req.
  rewrite (fetchLoop_first_success_result client req domain maxRetry 0 None k RRs T Hk Hok Hfail).
  cbn [fst snd]. rewrite ceil_div_100 by done. split; [|split; [done|]].
  - rewrite hostnames_app, (hostnames_out (fun RR => RR +:+ "." +:+ domain)).
    assert (hostnames (replicate (S k) (PCall req)) = []) as ->; [|done].
    clear. induction (S k) as [|n IH]; [done|]. exact IH.
  - pose proof (Z.div_mod (T + 99) 100 ltac:(lia)).
    pose proof (Z.mod_pos_bound (T + 99) 100 ltac:(lia)). lia.
Qed.

Lemma X11_witness :
  let client := fun (req : DescribeDomainRecordsRequest) (n : nat) =>
    if (n <? 2)%nat then CallErr "i/o timeout" else CallResp 200 ["www"; "api"] 250 in
  let run := fetchWithRetry client "example.com" "A" 1 100 in
  hostnames (fst run) = map (fun RR => RR +:+ "." +:+ "example.com") ["www"; "api"]
  /\ snd run = ((250 + 99) / 100, None)
  /\ 100 * ((250 + 99) / 100 - 1) < 250 <= 100 * ((250 + 99) / 100).
Proof.
  intros client.
  apply (X11_fetch_success_hostnames_and_page_count client "example.com" "A" 1 100 2
           ["www"; "api"] 250).
  - lia.
  - reflexivity.
  - intros j Hj. destruct j as [|[|j]]; [reflexivity|reflexivity|lia].
  - lia.
Defined.

Lemma calls_call req evs : calls (PCall req :: evs) = req :: calls evs.
Proof. reflexivity. Qed.

Lemma hostnames_call req evs : hostnames (PCall req :: evs) = hostnames evs.
Proof. reflexivity. Qed.

Lemma logged_call req evs : logged (PCall req :: evs) = logged evs.
Proof. reflexivity. Qed.

Lemma logged_out (f : string -> string) l : logged (map (fun RR => POut (f RR)) l) = [].
Proof. induction l; simpl; done. Qed.

Lemma logged_app evs evs' : logged (evs ++ evs') = logged evs ++ logged evs'.
Proof. apply omap_app. Qed.

Lemma logged_fetchLoop client req domain remaining : forall retry lastErr,
  logged (fst (fetchLoop client req domain remaining retry lastErr)) = [].
Proof.
  induction remaining as [|n IH]; intros retry lastErr; simpl; [done|].
  destruct (client req retry) as [err|code RRs total].
  - specialize (IH (S retry) (Some err)). destruct (fetchLoop _ _ _ n _ _). exact IH.
  - destruct (code =? http_StatusOK).
    + cbn [fst]. by rewrite logged_call, (logged_out (fun RR => RR +:+ "." +:+ domain)).
    + specialize (IH (S retry) None). destruct (fetchLoop _ _ _ n _ _). exact IH.
Qed.

(** X12: a unit of the remote DNS provider whose first answer to every
    page request is a success requests page 1, learns the total count
    T, and then requests each of the pages 2 to ceil(T/100) exactly
    once and no page beyond; the hostnames it sends are those of the
    records of the pages requested. *)
Theorem X12_pages_requested
    (client : DescribeDomainRecordsRequest -> nat -> CallResult)
    (domain dnsType : string) (records : Z -> list string) (T : Z) :
  (forall page, client (pageRequest domain dnsType page) 0%nat
                = CallResp 200 (records page) T) ->
  0 <= T ->
  let unit := getRecords client domain dnsType in
  calls (main unit) = [pageRequest domain dnsType 1]
  /\ map calls (pages unit)
     = map (fun page => [pageRequest domain dnsType page]) (seqZ 2 ((T + 99) / 100 - 1))
  /\ unitHostnames unit
     = flat_map (fun page => map (fun RR => RR +:+ "." +:+ domain) (records page))
         (1 :: seqZ 2 ((T + 99) / 100 - 1))
  /\ logged (main unit) = [].
Proof.
  intros Hok HT unit. subst unit.
  assert (forall page,
            fetchWithRetry client domain dnsType page defaultSize
            = (PCall (pageRequest domain dnsType page)
                 :: map (fun RR => POut (RR +:+ "." +:+ domain)) (records page),
               ((T + 99) / 100, None))) as Hfetch.
  { intros page. unfold fetchWithRetry. fold (pageRequest domain dnsType page).
    rewrite (fetchLoop_first_success_result client _ domain maxRetry 0 None 0
               (records page) T ltac:(unfold maxRetry; lia) (Hok page) ltac:(intros; lia)).
    by rewrite ceil_div_100. }
  unfold getRecords. rewrite Hfetch.
  assert (0 <= (T + 99) / 100) as Hn by (apply Z.div_pos; lia).
  rewrite bool_decide_eq_false_2 by (intros H; by apply H).
  destruct (Z.ltb_spec ((T + 99) / 100) 0) as [|_]; [lia|]. simpl orb. cbv iota.
  cbn [main pages].
  split; [|split; [|split]].
  - by rewrite calls_call, (calls_out (fun RR => RR +:+ "." +:+ domain)).
  - rewrite map_map. apply map_ext. intros page. rewrite Hfetch. cbn [fst].
    by rewrite calls_call, (calls_out (fun RR => RR +:+ "." +:+ domain)).
  - unfold unitHostnames. cbn [main pages flat_map]. f_equal.
    + by rewrite hostnames_call, (hostnames_out (fun RR => RR +:+ "." +:+ domain)).
    + induction (seqZ 2 ((T + 99) / 100 - 1)) as [|page l IH]; simpl; [done|].
      rewrite IH, Hfetch. f_equal. cbn [fst].
      by rewrite hostnames_call, (hostnames_out (fun RR => RR +:+ "." +:+ domain)).
  - by rewrite logged_call, (logged_out (fun RR => RR +:+ "." +:+ domain)).
Qed.

Lemma X12_witness :
  let records := fun page : Z => ["host" +:+ pretty page] in
  let client := fun (req : DescribeDomainRecordsRequest) (n : nat) =>
    CallResp 200 (records (PageNumber req)) 250 in
  let unit := getRecords client "example.com" "A" in
  calls (main unit) = [pageRequest "example.com" "A" 1]
  /\ map calls (pages unit)
     = map (fun page => [pageRequest "example.com" "A" page]) (seqZ 2 ((250 + 99) / 100 - 1))
  /\ unitHostnames unit
     = flat_map (fun page => map (fun RR => RR +:+ "." +:+ "example.com") (records page))
         (1 :: seqZ 2 ((250 + 99) / 100 - 1))
  /\ logged (main unit) = [].
Proof.
  intros records client.
  apply (X12_pages_requested client "example.com" "A" records 250).
  - intros page. reflexivity.
  - lia.
Defined.

(** X13: the goroutines of the pages after the first never log, and a
    later page that fails on all 3 attempts sends nothing: when page 1
    succeeded, the unit logs nothing at all, and the hostnames of a
    failed later page are dropped silently. *)
Theorem X13_later_page_failure_is_silent
    (client : DescribeDomainRecordsRequest -> nat -> CallResult)
    (domain dnsType : string) (RRs : list string) (T page : Z) :
  client (pageRequest domain dnsType 1) 0%nat = CallResp 200 RRs T ->
  2 <= page <= (T + 99) / 100 ->
  (forall k, (k < 3)%nat -> succeeds (client (pageRequest domain dnsType page) k) = false) ->
  let unit := getRecords client domain dnsType in
  replicate 3 (PCall (pageRequest domain dnsType page)) ∈ pages unit
  /\ logged (main unit) = []
  /\ Forall (fun evs => logged evs = []) (pages unit).
Proof.
  intros Hok Hpage Hfail unit. subst unit.
  assert (0 <= T) as HT.
  { destruct (Z.le_gt_cases 0 T) as [|Hneg]; [done|exfalso].
    assert ((T + 99) / 100 < 1) by (apply Z.div_lt_upper_bound; lia). lia. }
  unfold getRecords.
  assert (fetchWithRetry client domain dnsType 1 defaultSize
          = (PCall (pageRequest domain dnsType 1)
               :: map (fun RR => POut (RR +:+ "." +:+ domain)) RRs,
             ((T + 99) / 100, None))) as ->.
  { unfold fetchWithRetry. fold (pageRequest domain dnsType 1).
    rewrite (fetchLoop_first_success_result client _ domain maxRetry 0 None 0
               RRs T ltac:(unfold maxRetry; lia) Hok ltac:(intros; lia)).
    by rewrite ceil_div_100. }
  rewrite bool_decide_eq_false_2 by (intros H; by apply H).
  destruct (Z.ltb_spec ((T + 99) / 100) 0) as [|_]; [lia|]. simpl orb. cbv iota.
  cbn [main pages]. split; [|split].
  - apply list_elem_of_fmap. exists page. split.
    + unfold fetchWithRetry. fold (pageRequest domain dnsType page).
      destruct (fetchLoop_all_fail client (pageRequest domain dnsType page) domain
                  maxRetry 0 None Hfail) as [err ->]. reflexivity.
    + apply elem_of_seqZ. lia.
  - by rewrite logged_call, (logged_out (fun RR => RR +:+ "." +:+ domain)).
  - apply Forall_forall. intros evs (p & -> & _)%list_elem_of_fmap.
    apply logged_fetchLoop.
Qed.

Lemma X13_witness :
  let client := fun (req : DescribeDomainRecordsRequest) (n : nat) =>
    if PageNumber req =? 2 then CallErr "i/o timeout" else CallResp 200 ["www"] 250 in
  let unit := getRecords client "example.com" "A" in
  replicate 3 (PCall (pageRequest "example.com" "A" 2)) ∈ pages unit
  /\ logged (main unit) = []
  /\ Forall (fun evs => logged evs = []) (pages unit).
Proof.
  intros client.
  apply (X13_later_page_failure_is_silent client "example.com" "A" ["www"] 250 2).
  - reflexivity.
  - split; [lia|]. vm_compute. discriminate.
  - intros k Hk. reflexivity.
Defined.

(* ===================================================================== *)
(** * The third-party API provider *)
(* ===================================================================== *)

Lemma westHostnames_app evs evs' :
  westHostnames (evs ++ evs') = westHostnames evs ++ westHostnames evs'.
Proof. apply omap_app. Qed.

Lemma sleeps_app evs evs' : sleeps (evs ++ evs') = sleeps evs ++ sleeps evs'.
Proof. apply omap_app. Qed.

Lemma westHostnames_out {A} (f : A -> string) l :
  westHostnames (map (fun x => WOut (f x)) l) = map f l.
Proof.
  induction l as [|x l IH]; simpl; [done|]. unfold westHostnames in *. simpl. by rewrite IH.
Qed.

Lemma requests_out {A} (f : A -> string) l : requests (map (fun x => WOut (f x)) l) = [].
Proof. induction l; simpl; done. Qed.

Lemma sleeps_out {A} (f : A -> string) l : sleeps (map (fun x => WOut (f x)) l) = [].
Proof. induction l; simpl; done. Qed.

Lemma requests_app evs evs' : requests (evs ++ evs') = requests evs ++ requests evs'.
Proof. apply omap_app. Qed.

(** [url.Values.Add] over entries with distinct keys: a key's values
    are those it had, then the value among the entries if there is one. *)
Lemma foldl_Values_Add (l : list (string * string)) : forall q k,
  NoDup l.*1 ->
  foldl (fun q '(k, v) => Values_Add q k v) q l !! k
  = match list_to_map (M := gmap string string) l !! k with
    | Some v => Some ((q !!! k) ++ [v])
    | None => q !! k
    end.
Proof.
  induction l as [|[k' v'] l IH]; intros q k Hnd; simpl; [done|].
  apply NoDup_cons in Hnd as [Hk' Hnd]. rewrite IH by done.
  unfold Values_Add. destruct (decide (k' = k)) as [->|Hne].
  - rewrite lookup_insert_eq.
    assert (list_to_map (M := gmap string string) l !! k = None) as ->.
    { by apply not_elem_of_list_to_map_1. }
    by rewrite lookup_insert_eq.
  - rewrite lookup_insert_ne by done.
    rewrite lookup_total_insert_ne, lookup_insert_ne by done. done.
Qed.

Lemma flat_map_seq_S {A} (f : nat -> list A) k : forall a,
  flat_map f (seq (S a) k) = flat_map (fun j => f (S j)) (seq a k).
Proof. induction k as [|k IH]; intros a; simpl; [done|]. by rewrite IH. Qed.

Section WestFacts.

Variable rangeParam : gmap string string -> list (string * string).
Variable newRequestErr : string -> string -> error.
Variable clientDo : Request -> nat -> DoResult.
Variable jsonUnmarshal : string -> UnmarshalResult.
Variable fmt_s_other : jsonValue -> string.
Variable apiKey : string.

Local Abbreviation doAct := (doAction rangeParam newRequestErr clientDo apiKey).
Local Abbreviation loopItems := (itemsLoop fmt_s_other).
Local Abbreviation query :=
  (queryDomainRecord rangeParam newRequestErr clientDo jsonUnmarshal fmt_s_other apiKey).
Local Abbreviation unitLoop :=
  (westLoop rangeParam newRequestErr clientDo jsonUnmarshal fmt_s_other apiKey).

(** The form that [doAction] builds does not depend on the order in
    which the parameters are visited. *)
Lemma doAction_form param k :
  rangeParam param ≡ₚ map_to_list param ->
  foldl (fun q '(k, v) => Values_Add q k v) (Values_Add ∅ "apidomainkey" apiKey)
        (rangeParam param) !! k
  = match param !! k with
    | Some v => Some ((if decide (k = "apidomainkey") then [apiKey] else []) ++ [v])
    | None => if decide (k = "apidomainkey") then Some [apiKey] else None
    end.
Proof.
  intros Hperm.
  assert (NoDup (rangeParam param).*1) as Hnd.
  { rewrite Hperm. apply NoDup_fst_map_to_list. }
  rewrite foldl_Values_Add by done.
  assert (list_to_map (M := gmap string string) (rangeParam param) = param) as ->.
  { rewrite <- (list_to_map_to_list param) at 2.
    apply list_to_map_proper; [done|]. done. }
  unfold Values_Add. destruct (decide (k = "apidomainkey")) as [->|Hne].
  - rewrite lookup_total_insert_eq, lookup_insert_eq. by destruct (param !! _).
  - rewrite lookup_total_insert_ne, lookup_insert_ne, lookup_empty by done.
    rewrite lookup_total_empty. by destruct (param !! _).
Qed.

(** The items loop ends without an error or in a panic, never with an
    error to retry. *)
Lemma itemsLoop_no_error domain items e :
  snd (loopItems domain items) <> Return (Some e).
Proof.
  induction items as [|record items IH]; simpl; [done|].
  destruct (assertFloat64 _); simpl; try done.
  destruct (loopItems domain items) as [evs r]. exact IH.
Qed.

Lemma itemsLoop_wellformed domain items :
  Forall (fun record => is_Some (pauseOf record)) items ->
  loopItems domain items
  = (map (fun record => WOut (fmt_s_any fmt_s_other (lookupJSON record "hostname")
                               +:+ "." +:+ domain))
         (List.filter active items),
     Return None).
Proof.
  induction 1 as [|record items [f Hf] _ IH]; simpl; [done|].
  unfold active, pauseOf in *.
  destruct (lookupJSON record "pause"); try done. injection Hf as ->. simpl.
  rewrite IH. by destruct (float64_is_zero f).
Qed.

Lemma itemsLoop_panic domain pre bad post :
  Forall (fun record => is_Some (pauseOf record)) pre ->
  pauseOf bad = None ->
  exists msg,
    loopItems domain (pre ++ bad :: post)
    = (map (fun record => WOut (fmt_s_any fmt_s_other (lookupJSON record "hostname")
                                 +:+ "." +:+ domain))
           (List.filter active pre),
       Panic msg).
Proof.
  intros Hpre Hbad. induction Hpre as [|record pre [f Hf] _ [msg IH]]; simpl.
  - unfold pauseOf in Hbad. destruct (lookupJSON bad "pause"); simpl; eauto. done.
  - unfold active, pauseOf in *.
    destruct (lookupJSON record "pause"); try done. injection Hf as ->. simpl.
    rewrite IH. exists msg. by destruct (float64_is_zero f).
Qed.

(** The form of [queryDomainRecord], whatever the order of the visit. *)
Lemma queryDomainRecord_form domain recordType :
  let param : gmap string string :=
    <["act" := queryAction]> (<["domain" := domain]> (<["record_type" := recordType]> ∅)) in
  rangeParam param ≡ₚ map_to_list param ->
  foldl (fun q '(k, v) => Values_Add q k v) (Values_Add ∅ "apidomainkey" apiKey)
        (rangeParam param)
  = <["apidomainkey" := [apiKey]]>
    (<["act" := [queryAction]]>
     (<["domain" := [domain]]>
      (<["record_type" := [recordType]]> ∅))).
Proof.
  intros param Hperm. apply map_eq. intros k. rewrite (doAction_form param k Hperm).
  subst param.
  destruct (decide (k = "apidomainkey")) as [->|H1]; [by simplify_map_eq|].
  destruct (decide (k = "act")) as [->|H2]; [by simplify_map_eq|].
  destruct (decide (k = "domain")) as [->|H3]; [by simplify_map_eq|].
  destruct (decide (k = "record_type")) as [->|H4]; [by simplify_map_eq|].
  by simplify_map_eq.
Qed.

(** An attempt is one request and what is made of its answer. *)
Lemma queryDomainRecord_unfold domain recordType n :
  rangeParam (<["act" := queryAction]> (<["domain" := domain]>
                (<["record_type" := recordType]> ∅)))
    ≡ₚ map_to_list (<["act" := queryAction]> (<["domain" := domain]>
                      (<["record_type" := recordType]> (∅ : gmap string string)))) ->
  newRequestErr "POST" baseURL = None ->
  query domain recordType n
  = match clientDo (queryRequest apiKey domain recordType) n with
    | DoErr err => ([WDo (queryRequest apiKey domain recordType)], Return (Some err))
    | DoOk body =>
        match jsonUnmarshal body with
        | UnmarshalErr err =>
            ([WDo (queryRequest apiKey domain recordType)], Return (Some err))
        | UnmarshalOk Code Items =>
            if Code =? 500
            then ([WDo (queryRequest apiKey domain recordType)],
                  Return (Some "remote provider service error"))
            else (WDo (queryRequest apiKey domain recordType) :: fst (loopItems domain Items),
                  snd (loopItems domain Items))
        end
    end.
Proof.
  intros Hperm Hnew. unfold queryDomainRecord, doAction.
  simpl negb. cbv iota. rewrite Hnew.
  rewrite (queryDomainRecord_form domain recordType Hperm).
  fold (queryRequest apiKey domain recordType).
  destruct (clientDo _ n) as [err|body]; [done|].
  destruct (jsonUnmarshal body) as [err|Code Items]; [done|].
  destruct (Code =? 500); [done|].
  by destruct (itemsLoop fmt_s_other domain Items).
Qed.

(** An attempt that reports an error has sent no hostname. *)
Lemma queryDomainRecord_error_sends_nothing domain recordType n e :
  snd (query domain recordType n) = Return (Some e) ->
  westHostnames (fst (query domain recordType n)) = [].
Proof.
  unfold queryDomainRecord, doAction. simpl negb. cbv iota.
  destruct (newRequestErr "POST" baseURL); [done|].
  destruct (clientDo _ n) as [err|body]; [done|].
  destruct (jsonUnmarshal body) as [err|Code Items]; [done|].
  destruct (Code =? 500); [done|].
  pose proof (itemsLoop_no_error domain Items e) as Hno.
  destruct (itemsLoop fmt_s_other domain Items) as [evs r]. simpl in *. done.
Qed.

(** The events of a unit: the attempts that report an error, each
    followed by a warning and a pause of one second, then either the
    first attempt that does not, or the closing error line. *)
Lemma westLoop_events domain recordType remaining : forall i k,
  (k <= remaining)%nat ->
  (forall j, (j < k)%nat ->
             exists e, snd (query domain recordType (i + j)%nat) = Return (Some e)) ->
  ((k < remaining)%nat ->
   forall e, snd (query domain recordType (i + k)%nat) <> Return (Some e)) ->
  unitLoop domain recordType remaining i
  = (flat_map (fun j => fst (query domain recordType (i + j)%nat)
                        ++ [WLog ["WARN provider west digital get record failed, try again in 1 seconds"];
                            WSleep time.Second])
              (seq 0 k)
     ++ (if (k <? remaining)%nat
         then fst (query domain recordType (i + k)%nat)
         else [WLog ["ERROR provider west digital failed exceed "; pretty maxRetry]]),
     if (k <? remaining)%nat
     then match snd (query domain recordType (i + k)%nat) with
          | Return _ => Return tt
          | Fatal line => Fatal line
          | Panic msg => Panic msg
          end
     else Return tt).
Proof.
  induction remaining as [|n IH]; intros i k Hk Hfail Hstop.
  - assert (k = 0)%nat as -> by lia. reflexivity.
  - destruct k as [|k].
    + specialize (Hstop ltac:(lia)). rewrite Nat.add_0_r in *. simpl.
      destruct (query domain recordType i) as [evs r]. simpl in *.
      destruct r as [[e|]| |]; [by destruct (Hstop e)|done..].
    + destruct (Hfail 0%nat ltac:(lia)) as [e He]. rewrite Nat.add_0_r in He.
      cbn [westLoop].
      destruct (query domain recordType i) as [evs r] eqn:E. simpl in He. subst r.
      rewrite (IH (S i) k ltac:(lia)); cycle 1.
      { intros j Hj. replace (S i + j)%nat with (i + S j)%nat by lia. apply Hfail. lia. }
      { intros Hlt. replace (S i + k)%nat with (i + S k)%nat by lia. apply Hstop. lia. }
      replace (S i + k)%nat with (i + S k)%nat by lia.
      change (S k <? S n)%nat with (k <? n)%nat.
      f_equal. cbn [seq flat_map]. rewrite Nat.add_0_r, E. cbn [fst].
      rewrite <- !app_assoc. f_equal. f_equal. f_equal. rewrite flat_map_seq_S.
      apply flat_map_ext. intros j. by replace (S i + j)%nat with (i + S j)%nat by lia.
Qed.

Lemma sleeps_itemsLoop domain items : sleeps (fst (loopItems domain items)) = [].
Proof.
  induction items as [|record items IH]; simpl; [done|].
  destruct (assertFloat64 _); simpl; try done.
  destruct (loopItems domain items) as [evs r]. simpl in *.
  rewrite sleeps_app, IH. by destruct (float64_is_zero _).
Qed.

Lemma sleeps_queryDomainRecord domain recordType n :
  sleeps (fst (query domain recordType n)) = [].
Proof.
  unfold queryDomainRecord, doAction. simpl negb. cbv iota.
  destruct (newRequestErr "POST" baseURL); [done|].
  destruct (clientDo _ n) as [err|body]; [done|].
  destruct (jsonUnmarshal body) as [err|Code Items]; [done|].
  destruct (Code =? 500); [done|].
  pose proof (sleeps_itemsLoop domain Items) as Hs.
  destruct (itemsLoop fmt_s_other domain Items) as [evs r]. simpl in *. exact Hs.
Qed.

End WestFacts.

(** X14: whatever the order in which the parameter map is visited, an
    attempt of a unit sends exactly one request: a POST to the base URL
    whose form holds the API key under "apidomainkey" and the action,
    the domain and the record type, one value each. *)
Theorem X14_query_request
    (rangeParam : gmap string string -> list (string * string))
    (newRequestErr : string -> string -> error) (clientDo : Request -> nat -> DoResult)
    (jsonUnmarshal : string -> UnmarshalResult) (fmt_s_other : jsonValue -> string)
    (apiKey domain recordType : string) (n : nat) :
  rangeParam (<["act" := queryAction]> (<["domain" := domain]>
                (<["record_type" := recordType]> ∅)))
    ≡ₚ map_to_list (<["act" := queryAction]> (<["domain" := domain]>
                      (<["record_type" := recordType]> (∅ : gmap string string)))) ->
  newRequestErr "POST" baseURL = None ->
  requests (fst (queryDomainRecord rangeParam newRequestErr clientDo jsonUnmarshal
                   fmt_s_other apiKey domain recordType n))
  = [queryRequest apiKey domain recordType].
Proof.
  intros Hperm Hnew.
  rewrite (queryDomainRecord_unfold _ _ _ _ _ _ _ _ _ Hperm Hnew).
  destruct (clientDo _ n) as [err|body]; [done|].
  destruct (jsonUnmarshal body) as [err|Code Items]; [done|].
  destruct (Code =? 500); [done|]. cbn [fst].
  change (requests (WDo ?r :: ?l)) with (r :: requests l). f_equal.
  induction Items as [|record Items IH]; simpl; [done|].
  destruct (assertFloat64 _); simpl; try done.
  destruct (itemsLoop fmt_s_other domain Items) as [evs r]. simpl in *.
  rewrite requests_app, IH. by destruct (float64_is_zero _).
Qed.

Lemma X14_witness :
  requests (fst (queryDomainRecord (fun m => reverse (map_to_list m)) (fun _ _ => None)
                   (fun _ _ => DoErr "i/o timeout") (fun _ => UnmarshalErr "unexpected end")
                   (fun _ => "") "key" "example.com" "A" 0))
  = [queryRequest "key" "example.com" "A"].
Proof.
  apply (X14_query_request (fun m => reverse (map_to_list m)) (fun _ _ => None)
           (fun _ _ => DoErr "i/o timeout") (fun _ => UnmarshalErr "unexpected end")
           (fun _ => "") "key" "example.com" "A" 0).
  - apply reverse_Permutation.
  - reflexivity.
Defined.

(** X15: what an attempt makes of a decoded answer whose items all
    carry a numeric pause flag.  With the code 500 it reports the
    remote error and sends nothing, whatever the items.  Otherwise it
    reports no error and sends, in order, the hostname of each item
    whose pause flag is 0, followed by a dot and the domain; a paused
    item is never sent. *)
Theorem X15_query_answer
    (rangeParam : gmap string string -> list (string * string))
    (newRequestErr : string -> string -> error) (clientDo : Request -> nat -> DoResult)
    (jsonUnmarshal : string -> UnmarshalResult) (fmt_s_other : jsonValue -> string)
    (apiKey domain recordType : string) (n : nat)
    (body : string) (Code : Z) (Items : list (gmap string jsonValue)) :
  rangeParam (<["act" := queryAction]> (<["domain" := domain]>
                (<["record_type" := recordType]> ∅)))
    ≡ₚ map_to_list (<["act" := queryAction]> (<["domain" := domain]>
                      (<["record_type" := recordType]> (∅ : gmap string string)))) ->
  newRequestErr "POST" baseURL = None ->
  clientDo (queryRequest apiKey domain recordType) n = DoOk body ->
  jsonUnmarshal body = UnmarshalOk Code Items ->
  Forall (fun record => is_Some (pauseOf record)) Items ->
  let run := queryDomainRecord rangeParam newRequestErr clientDo jsonUnmarshal
               fmt_s_other apiKey domain recordType n in
  if Code =? 500
  then westHostnames (fst run) = []
       /\ snd run = Return (Some "remote provider service error")
  else westHostnames (fst run)
       = map (fun record => fmt_s_any fmt_s_other (lookupJSON record "hostname")
                            +:+ "." +:+ domain)
             (List.filter active Items)
       /\ snd run = Return None.
Proof.
  intros Hperm Hnew Hdo Hjson Hwf run. subst run.
  rewrite (queryDomainRecord_unfold _ _ _ _ _ _ _ _ _ Hperm Hnew), Hdo, Hjson.
  destruct (Code =? 500); [done|].
  rewrite (itemsLoop_wellformed fmt_s_other domain Items Hwf). cbn [fst snd].
  split; [|done].
  change (westHostnames (WDo ?r :: ?l)) with (westHostnames l).
  apply (westHostnames_out
           (fun record => fmt_s_any fmt_s_other (lookupJSON record "hostname")
                          +:+ "." +:+ domain)).
Qed.

Lemma X15_witness :
  let zero := S754_zero false in
  let one := float64.of_int 1 in
  let item := fun (h : string) (p : float64.t) =>
    (<["hostname" := JString h]> (<["pause" := JNumber p]> ∅) : gmap string jsonValue) in
  let Items := [item "www" zero; item "old" one; item "api" zero] in
  let run := queryDomainRecord map_to_list (fun _ _ => None) (fun _ _ => DoOk "{}")
               (fun _ => UnmarshalOk 200 Items) (fun _ => "") "key" "example.com" "A" 0 in
  westHostnames (fst run)
  = map (fun record => fmt_s_any (fun _ => "") (lookupJSON record "hostname")
                       +:+ "." +:+ "example.com")
        (List.filter active Items)
  /\ snd run = Return None.
Proof.
  intros zero one item Items.
  apply (X15_query_answer map_to_list (fun _ _ => None) (fun _ _ => DoOk "{}")
           (fun _ => UnmarshalOk 200 Items) (fun _ => "") "key" "example.com" "A" 0
           "{}" 200 Items).
  - reflexivity.
  - reflexivity.
  - reflexivity.
  - reflexivity.
  - repeat constructor; eexists; reflexivity.
Defined.

(** X16: an item without a numeric pause flag (absent, null, or of
    another type) makes the attempt panic on the type assertion.  The
    hostnames of the items before it have been sent by then, those
    after it never are; and the unit whose first attempt it is ends
    there, with one request made and no retry. *)
Theorem X16_item_without_pause_panics
    (rangeParam : gmap string string -> list (string * string))
    (newRequestErr : string -> string -> error) (clientDo : Request -> nat -> DoResult)
    (jsonUnmarshal : string -> UnmarshalResult) (fmt_s_other : jsonValue -> string)
    (apiKey domain recordType : string)
    (body : string) (Code : Z) (pre post : list (gmap string jsonValue))
    (bad : gmap string jsonValue) :
  rangeParam (<["act" := queryAction]> (<["domain" := domain]>
                (<["record_type" := recordType]> ∅)))
    ≡ₚ map_to_list (<["act" := queryAction]> (<["domain" := domain]>
                      (<["record_type" := recordType]> (∅ : gmap string string)))) ->
  newRequestErr "POST" baseURL = None ->
  clientDo (queryRequest apiKey domain recordType) 0%nat = DoOk body ->
  jsonUnmarshal body = UnmarshalOk Code (pre ++ bad :: post) ->
  Code <> 500 ->
  Forall (fun record => is_Some (pauseOf record)) pre ->
  pauseOf bad = None ->
  let unit := westLoop rangeParam newRequestErr clientDo jsonUnmarshal
                fmt_s_other apiKey domain recordType maxRetry 0 in
  westHostnames (fst unit)
  = map (fun record => fmt_s_any fmt_s_other (lookupJSON record "hostname")
                       +:+ "." +:+ domain)
        (List.filter active pre)
  /\ (exists msg, snd unit = Panic msg)
  /\ requests (fst unit) = [queryRequest apiKey domain recordType]
  /\ sleeps (fst unit) = [].
Proof.
  intros Hperm Hnew Hdo Hjson Hcode Hpre Hbad unit. subst unit.
  pose proof (queryDomainRecord_unfold rangeParam newRequestErr clientDo jsonUnmarshal
                fmt_s_other apiKey domain recordType 0 Hperm Hnew) as Hq.
  rewrite Hdo, Hjson in Hq.
  destruct (Z.eqb_spec Code 500) as [|_]; [done|].
  destruct (itemsLoop_panic fmt_s_other domain pre bad post Hpre Hbad) as [msg Hitems].
  rewrite Hitems in Hq. cbn [fst snd] in Hq.
  cbn [westLoop maxRetry]. rewrite Hq. cbn [fst snd].
  split; [|split; [by exists msg|split]].
  - change (westHostnames (WDo ?r :: ?l)) with (westHostnames l).
    apply (westHostnames_out
             (fun record => fmt_s_any fmt_s_other (lookupJSON record "hostname")
                            +:+ "." +:+ domain)).
  - change (requests (WDo ?r :: ?l)) with (r :: requests l). f_equal.
    apply (requests_out
             (fun record => fmt_s_any fmt_s_other (lookupJSON record "hostname")
                            +:+ "." +:+ domain)).
  - change (sleeps (WDo ?r :: ?l)) with (sleeps l).
    apply (sleeps_out
             (fun record => fmt_s_any fmt_s_other (lookupJSON record "hostname")
                            +:+ "." +:+ domain)).
Qed.

Lemma X16_witness :
  let item := fun (h : string) =>
    (<["hostname" := JString h]> (<["pause" := JNumber (S754_zero false)]> ∅)
       : gmap string jsonValue) in
  let bad : gmap string jsonValue := <["hostname" := JString "odd"]> ∅ in
  let unit := westLoop map_to_list (fun _ _ => None) (fun _ _ => DoOk "{}")
                (fun _ => UnmarshalOk 200 ([item "www"] ++ bad :: [item "api"]))
                (fun _ => "") "key" "example.com" "A" maxRetry 0 in
  westHostnames (fst unit) = ["www.example.com"]
  /\ (exists msg, snd unit = Panic msg)
  /\ requests (fst unit) = [queryRequest "key" "example.com" "A"]
  /\ sleeps (fst unit) = [].
Proof.
  intros item bad.
  apply (X16_item_without_pause_panics map_to_list (fun _ _ => None) (fun _ _ => DoOk "{}")
           (fun _ => UnmarshalOk 200 ([item "www"] ++ bad :: [item "api"]))
           (fun _ => "") "key" "example.com" "A" "{}" 200 [item "www"] [item "api"] bad).
  - reflexivity.
  - reflexivity.
  - reflexivity.
  - reflexivity.
  - discriminate.
  - repeat constructor; eexists; reflexivity.
  - reflexivity.
Defined.

(** X17: the goroutine of a unit makes at most 3 attempts.  When the
    first [k] attempts each report an error and, if [k] is below 3,
    attempt [k] reports none, the unit ends normally; it has paused one
    second after each attempt that reported an error (after the last
    one too); the hostnames sent are those of attempt [k] alone, the
    attempts that reported an error having sent none; and when all 3
    attempts reported an error its last act is the closing error line. *)
Theorem X17_unit_retries
    (rangeParam : gmap string string -> list (string * string))
    (newRequestErr : string -> string -> error) (clientDo : Request -> nat -> DoResult)
    (jsonUnmarshal : string -> UnmarshalResult) (fmt_s_other : jsonValue -> string)
    (apiKey domain recordType : string) (k : nat) :
  let query := queryDomainRecord rangeParam newRequestErr clientDo jsonUnmarshal
                 fmt_s_other apiKey domain recordType in
  (k <= 3)%nat ->
  (forall j, (j < k)%nat -> exists e, snd (query j) = Return (Some e)) ->
  ((k < 3)%nat -> snd (query k) = Return None) ->
  let unit := westLoop rangeParam newRequestErr clientDo jsonUnmarshal
                fmt_s_other apiKey domain recordType maxRetry 0 in
  snd unit = Return tt
  /\ westHostnames (fst unit) = (if (k <? 3)%nat then westHostnames (fst (query k)) else [])
  /\ sleeps (fst unit) = replicate k time.Second
  /\ (k = 3%nat ->
      last (fst unit) = Some (WLog ["ERROR provider west digital failed exceed "; "3"])).
Proof.
  intros query Hk Hfail Hstop unit. subst unit.
  rewrite (westLoop_events rangeParam newRequestErr clientDo jsonUnmarshal fmt_s_other apiKey
             domain recordType maxRetry 0 k Hk Hfail); cycle 1.
  { intros Hlt e. simpl. fold query. rewrite (Hstop Hlt). done. }
  cbn [fst snd]. simpl Nat.add. fold query.
  assert (forall l,
            (forall j, j ∈ l -> exists e, snd (query j) = Return (Some e)) ->
            westHostnames
              (flat_map (fun j => fst (query j)
                 ++ [WLog ["WARN provider west digital get record failed, try again in 1 seconds"];
                     WSleep time.Second]) l) = []
            /\ sleeps
              (flat_map (fun j => fst (query j)
                 ++ [WLog ["WARN provider west digital get record failed, try again in 1 seconds"];
                     WSleep time.Second]) l) = replicate (length l) time.Second) as Hflat.
  { induction l as [|j l IH]; intros Hl; [done|]. simpl.
    destruct (IH ltac:(intros j' Hj'; apply Hl; by apply list_elem_of_further)) as [IH1 IH2].
    destruct (Hl j ltac:(apply list_elem_of_here)) as [e He].
    rewrite !westHostnames_app, !sleeps_app, IH1, IH2.
    unfold query in *.
    rewrite (queryDomainRecord_error_sends_nothing _ _ _ _ _ _ _ _ _ _ He).
    rewrite sleeps_queryDomainRecord. done. }
  destruct (Hflat (seq 0 k)) as [Hh Hs].
  { intros j Hj%elem_of_seq. apply Hfail. lia. }
  rewrite length_seq in Hs.
  rewrite westHostnames_app, sleeps_app, Hh, Hs.
  change (k <? maxRetry)%nat with (k <? 3)%nat.
  destruct (Nat.ltb_spec k 3) as [Hlt|Hge].
  - rewrite (Hstop Hlt). split; [done|]. split; [done|]. split; [|lia].
    unfold query. by rewrite sleeps_queryDomainRecord, app_nil_r.
  - split; [done|]. split; [done|]. split; [by rewrite app_nil_r|].
    intros _. by rewrite last_snoc.
Qed.

Lemma X17_witness :
  let clientDo := fun (_ : Request) (n : nat) =>
    if (n <? 2)%nat then DoErr "i/o timeout" else DoOk "{}" in
  let item : gmap string jsonValue :=
    <["hostname" := JString "www"]> (<["pause" := JNumber (S754_zero false)]> ∅) in
  let unit := westLoop map_to_list (fun _ _ => None) clientDo
                (fun _ => UnmarshalOk 200 [item]) (fun _ => "")
                "key" "example.com" "A" maxRetry 0 in
  snd unit = Return tt
  /\ westHostnames (fst unit) = ["www.example.com"]
  /\ sleeps (fst unit) = [time.Second; time.Second].
Proof.
  intros clientDo item.
  destruct (X17_unit_retries map_to_list (fun _ _ => None) clientDo
              (fun _ => UnmarshalOk 200 [item]) (fun _ => "")
              "key" "example.com" "A" 2) as (Hend & Hhosts & Hsleeps & _).
  - lia.
  - intros j Hj. destruct j as [|[|j]]; [by eexists|by eexists|lia].
  - intros _. reflexivity.
  - split; [exact Hend|]. split; [exact Hhosts|exact Hsleeps].
Defined.

(* ===================================================================== *)
(** * Factories, start-up and cadence *)
(* ===================================================================== *)

Lemma ProviderConfig_Get_string pc key :
  (exists s, ProviderConfig_Get pc key = Return s)
  <-> (exists s, Addition pc !! key = Some (AnyString s)).
Proof.
  unfold ProviderConfig_Get, lookupAny.
  destruct (Addition pc !! key) as [[]|]; simpl; split; intros [s' H]; try done; eauto.
Qed.

Lemma getOptions_Return pc keys :
  (exists vs, getOptions pc keys = Return vs)
  <-> Forall (fun key => exists s, Addition pc !! key = Some (AnyString s)) keys.
Proof.
  induction keys as [|key keys IH]; simpl.
  - split; [constructor|eauto].
  - rewrite Forall_cons, <- IH, <- ProviderConfig_Get_string. split.
    + intros [vs H]. destruct (ProviderConfig_Get pc key) as [v| |]; simpl in H; try done.
      split; [eauto|]. destruct (getOptions pc keys); simpl in H; try done. eauto.
    + intros [[s ->] [vs ->]]. simpl. eauto.
Qed.

Lemma getOptions_Fatal pc done key rest :
  Forall (fun k => exists s, Addition pc !! k = Some (AnyString s)) done ->
  lookupAny (Addition pc) key = AnyNil ->
  getOptions pc (done ++ key :: rest) = Fatal [key; "not exist"].
Proof.
  intros Hdone Hkey. induction Hdone as [|k done Hk _ IH]; simpl.
  - unfold ProviderConfig_Get. by rewrite Hkey.
  - apply ProviderConfig_Get_string in Hk as [s ->]. simpl. by rewrite IH.
Qed.

(** The factory ends the way the look-ups of the required options end. *)
Lemma NewProvider_getOptions config keys :
  requiredOptions (ProviderType config) = Some keys ->
  match getOptions config keys with
  | Return _ => exists p, NewProvider config = Return p
  | Fatal line => NewProvider config = Fatal line
  | Panic msg => NewProvider config = Panic msg
  end.
Proof.
  unfold requiredOptions, NewProvider.
  repeat case_bool_decide; intros [= <-]; simpl;
    repeat (match goal with
            | |- context [ProviderConfig_Get ?c ?k] => destruct (ProviderConfig_Get c k); simpl
            end); eauto.
Qed.

(** X18: the provider factory.  A provider type outside "aliyun",
    "file" and "west" ends in the fatal log.  For each of the three, a
    provider is built if and only if every option the type requires is
    present as a string; and when a required option is absent (or
    null) while those looked up before it are strings, the factory ends
    in the fatal log naming that option.  The name and the top-level
    domain list of the configuration entry are never read. *)
Theorem X18_provider_factory (config : ProviderConfig) :
  match requiredOptions (ProviderType config) with
  | None => NewProvider config = Fatal ["doesn't support provider"; ProviderType config]
  | Some keys =>
      ((exists p, NewProvider config = Return p)
       <-> Forall (fun key => exists s, Addition config !! key = Some (AnyString s)) keys)
      /\ (forall done key rest,
            keys = done ++ key :: rest ->
            Forall (fun k => exists s, Addition config !! k = Some (AnyString s)) done ->
            lookupAny (Addition config) key = AnyNil ->
            NewProvider config = Fatal [key; "not exist"])
  end
  /\ (forall name' domains',
        NewProvider {| Name := name'; ProviderType := ProviderType config;
                       Addition := Addition config; Domains := domains' |}
        = NewProvider config).
Proof.
  split; [|by destruct config].
  destruct (requiredOptions (ProviderType config)) as [keys|] eqn:Hreq.
  - pose proof (NewProvider_getOptions config keys Hreq) as Hnew. split.
    + rewrite <- getOptions_Return.
      destruct (getOptions config keys) as [vs|line|msg]; split; intros [x Hx]; eauto;
        try congruence; try done.
    + intros done key rest -> Hdone Hkey.
      by rewrite (getOptions_Fatal config done key rest Hdone Hkey) in Hnew.
  - unfold requiredOptions in Hreq. unfold NewProvider.
    repeat case_bool_decide; done.
Qed.

(** X19: start-up builds the notifier from the first entry of the
    notifier list alone.  It succeeds if and only if the list is not
    empty and its first entry has the type "dding" and a string option
    "url", which becomes the notifier's URL; in every other case (empty
    list, other type, missing url) start-up panics: no configuration
    makes it end in the fatal log. *)
Theorem X19_notifier_start_up (config : Config_) :
  (forall dn,
     startNotifier config = Return dn
     <-> exists nc rest u,
           Notifies config = nc :: rest /\ Type_ nc = "dding"
           /\ Config nc !! "url" = Some (AnyString u) /\ dn = {| url := u |})
  /\ ((forall dn, startNotifier config <> Return dn) -> exists msg, startNotifier config = Panic msg).
Proof.
  unfold startNotifier, NewNotify, NotifyConfig_Get, lookupAny.
  destruct (Notifies config) as [|nc rest].
  { split; [|eauto]. intros dn. split; [done|]. by intros (? & ? & ? & [=] & _). }
  case_bool_decide as Htype; simpl.
  - destruct (Config nc !! "url") as [[]|] eqn:Hurl; simpl;
      (split; [intros dn; split;
                [try done; intros [= <-]; eauto 10
                |intros (? & ? & ? & [= <- <-] & _ & Hu & ->); congruence]
              |intros Hno; eauto]).
    exfalso. by eapply Hno.
  - split; [|eauto]. intros dn. split; [done|].
    intros (? & ? & ? & [= <- <-] & ? & _). done.
Qed.

Lemma wrap64_id z : -9223372036854775808 <= z < 9223372036854775808 -> wrap64 z = z.
Proof.
  intros Hz. unfold wrap64.
  change (2 ^ 63) with 9223372036854775808. change (2 ^ 64) with 18446744073709551616.
  rewrite Z.mod_small; lia.
Qed.

(** X20: the cadence.  For a timeout of the configuration between
    -922328563 and 922337203 no product overflows and the flush
    interval is ten seconds times the timeout.  With a timeout that is
    not positive (0 is what an omitted timeout reads as) the notifier
    panics when it creates its ticker, before receiving anything; with
    a positive one it runs.  The sleep asked for at the end of a cycle
    is 24 hours less the flush interval, so the two add up to the check
    interval; no pause is made at all once the timeout reaches 8640. *)
Theorem X20_cadence (config : Config_)
    (rangeOrder : gmap string (list string) -> list (string * list string))
    (dn : DDingNotify) (inputs : list Input) :
  -922328563 <= Timeout config <= 922337203 ->
  waitTime config = Timeout config * 10 * time.Second
  /\ (Timeout config <= 0 ->
      Send_run rangeOrder dn (waitTime config) inputs
      = Panic "non-positive interval for NewTicker")
  /\ (0 < Timeout config ->
      Send_run rangeOrder dn (waitTime config) inputs = Return (Send rangeOrder dn inputs))
  /\ waitTime config + cycleSleep config = checkInterval
  /\ (cyclePause config = 0 <-> 8640 <= Timeout config).
Proof.
  intros Hrange.
  assert (time.Second = 1000000000) as HS by reflexivity.
  assert (checkInterval = 86400000000000) as HC by reflexivity.
  assert (waitTime config = Timeout config * 10 * time.Second) as Hwait.
  { unfold waitTime. rewrite HS, (wrap64_id (Timeout config * 10)) by lia.
    rewrite wrap64_id by lia. done. }
  assert (cycleSleep config = checkInterval - waitTime config) as Hsleep.
  { unfold cycleSleep. rewrite Hwait, HS, HC, wrap64_id by lia. done. }
  split; [done|]. unfold Send_run, cyclePause. rewrite Hsleep, Hwait, HS, HC.
  split; [|split; [|split]].
  - intros Hle. destruct (Z.leb_spec (Timeout config * 10 * 1000000000) 0); [done|lia].
  - intros Hpos. destruct (Z.leb_spec (Timeout config * 10 * 1000000000) 0); [lia|done].
  - lia.
  - lia.
Qed.

Lemma X20_witness :
  let config := {| Timeout := 0; WarnDays := 30; Providers := []; Notifies := [] |} in
  waitTime config = 0
  /\ Send_run map_to_list {| url := "https://sink.example/hook" |} (waitTime config)
       [Recv {| WarnMsg := "expires in 10 days"; Host := "a.example.com:443" |}]
     = Panic "non-positive interval for NewTicker".
Proof.
  intros config.
  destruct (X20_cadence config map_to_list {| url := "https://sink.example/hook" |}
              [Recv {| WarnMsg := "expires in 10 days"; Host := "a.example.com:443" |}])
    as (Hwait & Hpanic & _).
  - simpl. lia.
  - split; [exact Hwait|]. apply Hpanic. simpl. lia.
Defined.
